(** * Gutenberg Word Frequency Tool: a shallow embedding of gutenberg_guiKH.py

    The development follows the source file top to bottom:
    - [Chars]   : the character classes Python's [str.lower], [str.strip] and
                  the [re] module use, on the code points U+0000..U+00FF;
    - [Regex]   : [re.findall(r'\b[a-zA-Z]{3,}\b', s)];
    - [Counting]: [collections.Counter] and [most_common];
    - [Rule]    : the tokenization rule in words, to compare [Regex] with;
    - [Exn]     : the exceptions the program meets;
    - [Parser]  : class [GutenbergSearchParser];
    - [LinkRule]: the link rule in words, to compare [Parser] with;
    - [Store]   : the two tables of books.db and the three SQL statements;
    - [App]     : [search_book], [fetch_and_process_book], [process_input];
    - [Examples]: sample documents, worlds and stores.
    The lemmas come after all definitions, one module of facts per part, and
    the properties of the program close the file.

    Text is a sequence of characters.  A character is a Rocq [ascii], read as
    the code point of the same number (so the model covers texts over
    U+0000..U+00FF, a range closed under [str.lower]). *)

From Stdlib Require Import List String Ascii Arith Bool Lia.
From Stdlib Require Import Sorting.Sorted Sorting.Permutation DecimalString.
Import ListNotations.
Open Scope string_scope.
Open Scope list_scope.
Open Scope nat_scope.

(* ===================================================================== *)
(** ** Characters *)
(* ===================================================================== *)

Module Chars.

Definition code (c : ascii) : nat := nat_of_ascii c.

Definition between (lo hi : nat) (c : ascii) : bool :=
  (lo <=? code c) && (code c <=? hi).

(** The character class [[a-zA-Z]] of the pattern. *)
Definition is_letter (c : ascii) : bool :=
  between 97 122 c || between 65 90 c.

Definition is_digit (c : ascii) : bool := between 48 57 c.

(** [str.isalnum] above U+007F: the letters, digits and numerics of the
    Latin-1 supplement (U+00AA, U+00B2, U+00B3, U+00B5, U+00B9, U+00BA,
    U+00BC..U+00BE, U+00C0..U+00D6, U+00D8..U+00F6, U+00F8..U+00FF). *)
Definition is_alnum_hi (c : ascii) : bool :=
  (code c =? 170) || between 178 179 c || (code c =? 181) ||
  between 185 186 c || between 188 190 c ||
  between 192 214 c || between 216 246 c || between 248 255 c.

(** [\w] for a [str] pattern: alphanumeric or the underscore. *)
Definition is_word (c : ascii) : bool :=
  is_letter c || is_digit c || (code c =? 95) || is_alnum_hi c.

(** [str.lower] on one character: A..Z, and U+00C0..U+00DE except U+00D7,
    move 32 places up; every other character is its own lower case. *)
Definition lower_char (c : ascii) : ascii :=
  if between 65 90 c || between 192 214 c || between 216 222 c
  then ascii_of_nat (code c + 32) else c.

(** [str.isspace]: what [str.strip()] removes. *)
Definition is_space (c : ascii) : bool :=
  between 9 13 c || between 28 32 c || (code c =? 133) || (code c =? 160).

(** A [str] as the list of its characters and back. *)
Definition chars (s : string) : list ascii := list_ascii_of_string s.
Definition str (l : list ascii) : string := string_of_list_ascii l.

(** [s.lower()] *)
Definition lower (s : string) : string := str (map lower_char (chars s)).

Fixpoint lstrip (l : list ascii) : list ascii :=
  match l with
  | c :: r => if is_space c then lstrip r else l
  | [] => []
  end.

(** [s.strip()] *)
Definition strip (s : string) : string :=
  str (rev (lstrip (rev (lstrip (chars s))))).

(** The line feed that ends every line written to the output box. *)
Definition nl : string := String (ascii_of_nat 10) EmptyString.

End Chars.

(* ===================================================================== *)
(** ** re.findall(r'\b[a-zA-Z]{3,}\b', s) *)
(* ===================================================================== *)

Module Regex.
Import Chars.

(** Is the neighbour of a position a word character?  Outside the string
    ([None]) it is not. *)
Definition wordy (o : option ascii) : bool :=
  match o with Some c => is_word c | None => false end.

(** [\b] between the character before ([prev]) and the one after ([next]). *)
Definition boundary (prev next : option ascii) : bool :=
  xorb (wordy prev) (wordy next).

(** Greedy [[a-zA-Z]*]: how many letters start [l]. *)
Fixpoint letters_prefix (l : list ascii) : nat :=
  match l with
  | c :: r => if is_letter c then S (letters_prefix r) else 0
  | [] => 0
  end.

(** Backtracking over the repetition count of [[a-zA-Z]{3,}]: the longest
    count [k], from the greedy one down to 3, after which [\b] holds. *)
Fixpoint backtrack (k : nat) (l : list ascii) : option nat :=
  match k with
  | 0 => None
  | S k' =>
      if (3 <=? k) && boundary (nth_error l k') (nth_error l k)
      then Some k
      else backtrack k' l
  end.

(** The pattern tried at one position; [prev] is the character before it. *)
Definition match_here (prev : option ascii) (l : list ascii)
  : option (list ascii) :=
  if boundary prev (hd_error l)
  then match backtrack (letters_prefix l) l with
       | Some k => Some (firstn k l)
       | None => None
       end
  else None.

(** The scan of [findall]: try the pattern at every position from left to
    right; after a match resume at its end ([skip] counts the characters of
    the match still to pass over). *)
Fixpoint findall_from (skip : nat) (prev : option ascii) (l : list ascii)
  : list (list ascii) :=
  match l with
  | [] => []
  | c :: r =>
      match skip with
      | S k => findall_from k (Some c) r
      | 0 =>
          match match_here prev l with
          | Some tok => tok :: findall_from (List.length tok - 1) (Some c) r
          | None => findall_from 0 (Some c) r
          end
      end
  end.

Definition findall (s : string) : list string :=
  map str (findall_from 0 None (chars s)).

(** [re.findall(r'\b[a-zA-Z]{3,}\b', text.lower())] *)
Definition words_of (text : string) : list string := findall (lower text).

End Regex.

(* ===================================================================== *)
(** ** collections.Counter and most_common *)
(* ===================================================================== *)

Module Counting.

Definition entry : Type := string * nat.

(** [self[w] = self.get(w, 0) + 1] on a dict, which keeps its keys in the
    order of their first insertion: a present key is updated in place, a new
    key goes to the end. *)
Fixpoint incr (w : string) (c : list entry) : list entry :=
  match c with
  | [] => [(w, 1)]
  | (k, n) :: r => if (k =? w)%string then (k, S n) :: r else (k, n) :: incr w r
  end.

(** [c.keys()] and [w in c] *)
Definition keys (c : list entry) : list string := map fst c.

Definition has_key (w : string) (c : list entry) : bool :=
  existsb (String.eqb w) (keys c).

(** [c[w]]: the count kept for a key, 0 for a word that is no key. *)
Fixpoint get (w : string) (c : list entry) : nat :=
  match c with
  | [] => 0
  | (k, n) :: r => if (k =? w)%string then n else get w r
  end.

(** [Counter(words)] *)
Definition Counter (ws : list string) : list entry :=
  fold_left (fun c w => incr w c) ws [].

(** One step of a stable descending sort on the count: [x], which stood before
    all of [l] in the input, goes in front of the first entry whose count is
    not larger than its own. *)
Fixpoint insert_desc (x : entry) (l : list entry) : list entry :=
  match l with
  | [] => [x]
  | y :: r => if snd y <=? snd x then x :: l else y :: insert_desc x r
  end.

(** [sorted(items, key=itemgetter(1), reverse=True)]: descending and stable
    (entries of equal count keep their input order). *)
Definition sorted_desc (l : list entry) : list entry :=
  fold_right insert_desc [] l.

(** [c.most_common(n)], which is [heapq.nlargest(n, c.items(),
    key=itemgetter(1))], documented as
    [sorted(c.items(), key=itemgetter(1), reverse=True)[:n]]. *)
Definition most_common (n : nat) (c : list entry) : list entry :=
  firstn n (sorted_desc c).

(** Lines 129-130 and 169-170: the Word-Counter. *)
Definition top_words (text : string) : list entry :=
  most_common 10 (Counter (Regex.words_of text)).

(** Position of the first occurrence of [w] in a token sequence. *)
Fixpoint first_index (w : string) (l : list string) : option nat :=
  match l with
  | [] => None
  | x :: r => if (x =? w)%string then Some 0 else option_map S (first_index w r)
  end.

(** [x] stands somewhere before [y] in [l]. *)
Fixpoint before {A : Type} (l : list A) (x y : A) : Prop :=
  match l with
  | [] => False
  | z :: r => (z = x /\ In y r) \/ before r x y
  end.

Definition desc (x y : entry) : Prop := snd y <= snd x.

End Counting.

(* ===================================================================== *)
(** ** The tokenization rule in words *)
(* ===================================================================== *)

Module Rule.
Import Chars.

(** Length of the longest prefix of [l] in class [p]. *)
Fixpoint span_len (p : ascii -> bool) (l : list ascii) : nat :=
  match l with
  | c :: r => if p c then S (span_len p r) else 0
  | [] => 0
  end.

(** The maximal runs of characters of class [p], from left to right. *)
Fixpoint runs (p : ascii -> bool) (l : list ascii) : list (list ascii) :=
  match l with
  | [] => []
  | c :: r =>
      if p c then
        match r with
        | d :: _ =>
            if p d then
              match runs p r with
              | run :: rest => (c :: run) :: rest
              | [] => [[c]]
              end
            else [c] :: runs p r
        | [] => [[c]]
        end
      else runs p r
  end.

(** The rule as the specification words it: the maximal runs of ASCII letters
    of length at least 3, in lower case. *)
Definition letter_runs (text : string) : list string :=
  map (fun r => lower (str r))
      (filter (fun r => 3 <=? List.length r) (runs is_letter (chars text))).

(** The rule of the pattern: the maximal runs of word characters of the
    lower-cased text that are made of ASCII letters only, at least 3 of them. *)
Definition is_token (r : list ascii) : bool :=
  forallb is_letter r && (3 <=? List.length r).

Definition delimited_words (text : string) : list string :=
  map str (filter is_token (runs is_word (chars (lower text)))).

End Rule.

(* ===================================================================== *)
(** ** Exceptions *)
(* ===================================================================== *)

Module Exn.

Inductive kind : Type :=
| TypeError | AttributeError | NameError | URLError | UnicodeDecodeError
| DatabaseError | AssertionError.

(** An exception: its class and [str(e)]. *)
Record exn : Type := Raise { exn_kind : kind; exn_str : string }.

(** ['booklink' in None] *)
Definition none_not_iterable : exn :=
  Raise TypeError "argument of type 'NoneType' is not iterable".

(** [None.split('/')] *)
Definition none_has_no_split : exn :=
  Raise AttributeError "'NoneType' object has no attribute 'split'".

(** An unbound name. *)
Definition name_not_defined (name : string) : exn :=
  Raise NameError ("name '" ++ name ++ "' is not defined")%string.

End Exn.

(* ===================================================================== *)
(** ** class GutenbergSearchParser (lines 21-45) *)
(* ===================================================================== *)

Module Parser.
Import Exn.

(** The attribute list [HTMLParser] hands to [handle_starttag]: names in
    lower case, the value [None] for an attribute written without one. *)
Definition attr_list : Type := list (string * option string).

Record start_tag : Type := StartTag { tag : string; attrs : attr_list }.

(** [dict(attrs)[k]], when [k in dict(attrs)]: the last binding wins. *)
Fixpoint dict_get (k : string) (a : attr_list) : option (option string) :=
  match a with
  | [] => None
  | (k', v) :: r =>
      match dict_get k r with
      | Some v' => Some v'
      | None => if (k' =? k)%string then Some v else None
      end
  end.

Fixpoint starts_with (needle hay : list ascii) : bool :=
  match needle, hay with
  | [], _ => true
  | _ :: _, [] => false
  | a :: n', b :: h' => Ascii.eqb a b && starts_with n' h'
  end.

Fixpoint occurs_in (needle hay : list ascii) : bool :=
  starts_with needle hay ||
  match hay with
  | [] => false
  | _ :: h' => occurs_in needle h'
  end.

(** [needle in hay] on two [str]. *)
Definition str_in (needle hay : string) : bool :=
  occurs_in (Chars.chars needle) (Chars.chars hay).

Record GutenbergSearchParser : Type := Self {
  book_links : list (option string);
  in_result : bool
}.

(** [__init__] *)
Definition init : GutenbergSearchParser :=
  {| book_links := []; in_result := false |}.

(** [tag == 'li' and 'class' in attrs and 'booklink' in attrs['class']];
    [in] on a [None] value raises. *)
Definition is_result_item (tag : string) (a : attr_list) : exn + bool :=
  if (tag =? "li")%string then
    match dict_get "class" a with
    | None => inr false
    | Some None => inl none_not_iterable
    | Some (Some cls) => inr (str_in "booklink" cls)
    end
  else inr false.

Definition handle_starttag (tag : string) (a : attr_list)
    (self : GutenbergSearchParser) : exn + GutenbergSearchParser :=
  match is_result_item tag a with
  | inl e => inl e
  | inr marker =>
      let self1 :=
        if marker then {| book_links := book_links self; in_result := true |}
        else self in
      match in_result self1 && (tag =? "a")%string, dict_get "href" a with
      | true, Some href =>
          inr {| book_links := book_links self1 ++ [href];
                 in_result := false |}
      | _, _ => inr self1
      end
  end.

(** The calls [HTMLParser.feed] makes to the one callback the class
    overrides: [doc] is the sequence of start tags the scanner of [HTMLParser]
    hands to [handle_starttag], in document order (it hands over none from
    inside a script or style element or a comment), and an exception the
    callback raises ends the feed.  What the scanner raises by itself is not
    here but in [App.World]. *)
Fixpoint feed (doc : list start_tag) (self : GutenbergSearchParser)
  : exn + GutenbergSearchParser :=
  match doc with
  | [] => inr self
  | t :: r =>
      match handle_starttag (tag t) (attrs t) self with
      | inl e => inl e
      | inr self' => feed r self'
      end
  end.

(** A fresh parser, the callbacks on the start tags of one document, then
    [parser.book_links] (lines 113-116). *)
Definition extract_links (doc : list start_tag) : exn + list (option string) :=
  match feed doc init with
  | inl e => inl e
  | inr p => inr (book_links p)
  end.

End Parser.

(* ===================================================================== *)
(** ** The link rule in words *)
(* ===================================================================== *)

Module LinkRule.
Import Parser.

(** A list item whose class attribute contains the marker. *)
Definition is_marker (t : start_tag) : bool :=
  (tag t =? "li")%string &&
  match dict_get "class" (attrs t) with
  | Some (Some cls) => str_in "booklink" cls
  | _ => false
  end.

(** The href of an anchor element, when the tag is one. *)
Definition anchor_href (t : start_tag) : option (option string) :=
  if (tag t =? "a")%string then dict_get "href" (attrs t) else None.

(** The first anchor after a marker, looked for up to the next marker. *)
Fixpoint first_anchor (doc : list start_tag) : option (option string) :=
  match doc with
  | [] => None
  | t :: r =>
      if is_marker t then None
      else match anchor_href t with
           | Some h => Some h
           | None => first_anchor r
           end
  end.

(** What a raised flag still owes: the first anchor before the next marker. *)
Definition pending (flag : bool) (doc : list start_tag) : list (option string) :=
  if flag then
    match first_anchor doc with
    | Some h => [h]
    | None => []
    end
  else [].

(** In document order, for every marker that has one, the href of the first
    anchor that follows it before the next marker. *)
Fixpoint marked_links (doc : list start_tag) : list (option string) :=
  match doc with
  | [] => []
  | t :: r =>
      if is_marker t then
        match first_anchor r with
        | Some h => h :: marked_links r
        | None => marked_links r
        end
      else marked_links r
  end.

(** No list item of the document has a class attribute without a value. *)
Definition classes_have_values (doc : list start_tag) : Prop :=
  forall t, In t doc -> (tag t =? "li")%string = true ->
            dict_get "class" (attrs t) <> Some None.

End LinkRule.

(* ===================================================================== *)
(** ** books.db (lines 49-65, 83, 135-136) *)
(* ===================================================================== *)

Module Store.
Import Counting.

(** [Words (book_title TEXT, word TEXT, frequency INTEGER)] *)
Record row : Type := Row { book_title : string; word : string; frequency : nat }.

(** [Books (title TEXT PRIMARY KEY)] and [Words], rows in insertion order. *)
Record db : Type := Db { Books : list string; Words : list row }.

(** [setup_database] on a fresh file: both tables, no rows. *)
Definition setup_database : db := {| Books := []; Words := [] |}.

Definition has_title (t : string) (titles : list string) : bool :=
  existsb (String.eqb t) titles.

(** [INSERT OR IGNORE INTO Books VALUES (?)] *)
Definition insert_or_ignore (t : string) (d : db) : db :=
  if has_title t (Books d) then d
  else {| Books := Books d ++ [t]; Words := Words d |}.

(** [executemany("INSERT INTO Words VALUES (?, ?, ?)",
                 [(title, word, freq) for word, freq in top_words])] *)
Definition insert_words (t : string) (pairs : list entry) (d : db) : db :=
  {| Books := Books d;
     Words := Words d ++ map (fun p => Row t (fst p) (snd p)) pairs |}.

(** The two columns the SELECT returns. *)
Definition pair_of (r : row) : entry := (word r, frequency r).

Definition rows_of (t : string) (d : db) : list row :=
  filter (fun r => (book_title r =? t)%string) (Words d).

(** [SELECT word, frequency FROM Words WHERE book_title = ?
     ORDER BY frequency DESC LIMIT 10].  SQL leaves the order of rows of equal
    frequency open; the model keeps their insertion order. *)
Definition select_top_words (t : string) (d : db) : list entry :=
  firstn 10 (sorted_desc (map pair_of (rows_of t d))).

End Store.

(* ===================================================================== *)
(** ** The program (lines 69-190) *)
(* ===================================================================== *)

Module App.
Import Chars Counting Exn Parser Store.

(** What lies outside the program during one click on SEARCH. *)
Record World : Type := {
  (** [urllib.request.urlopen(url).read().decode('utf-8')]: the decoded body,
      or the exception of the transport or of the decoding *)
  urlopen_text : string -> exn + string;
  (** [urllib.parse.quote] *)
  quote : string -> string;
  (** the start tags the scanner of [HTMLParser] hands to [handle_starttag]
      on a document, in document order: none from inside script or style,
      and none past the point where the scanner itself raises *)
  start_tags : string -> list start_tag;
  (** the exception the scanner of [HTMLParser] raises by itself on a
      document, if any (an AssertionError on a marked section it cannot
      read), once the start tags before that point are handed over *)
  scanner_error : string -> option exn;
  (** the exception sqlite3 raises on the write transaction, if any; nothing
      of a failed transaction is committed *)
  write_error : option exn
}.

(** The state the functions share: the database file, the text of the output
    box, and the URLs opened so far (oldest first). *)
Record GUI : Type := {
  database : db;
  output_box : string;
  opened : list string
}.

(** A statement sequence: it runs on the state and ends normally with a value
    or with a raised exception; the state changes made before a raise stay. *)
Definition M (A : Type) : Type := GUI -> (exn + A) * GUI.

Definition ret {A} (a : A) : M A := fun g => (inr a, g).

Definition raise {A} (e : exn) : M A := fun g => (inl e, g).

Definition bind {A B} (c : M A) (k : A -> M B) : M B :=
  fun g => match c g with
           | (inr a, g') => k a g'
           | (inl e, g') => (inl e, g')
           end.

(** [try: c  except Exception as e: h e] *)
Definition try_except {A} (c : M A) (h : exn -> M A) : M A :=
  fun g => match c g with
           | (inr a, g') => (inr a, g')
           | (inl e, g') => h e g'
           end.

Notation "x <- c ;; k" := (bind c (fun x => k))
  (at level 61, c at next level, right associativity).
Notation "c ;; k" := (bind c (fun _ => k))
  (at level 61, right associativity).

(** [output_box.delete('1.0', tk.END)] *)
Definition box_delete : M unit :=
  fun g => (inr tt, {| database := database g; output_box := EmptyString;
                       opened := opened g |}).

(** [output_box.insert(tk.END, s)] *)
Definition box_insert (s : string) : M unit :=
  fun g => (inr tt, {| database := database g;
                       output_box := (output_box g ++ s)%string;
                       opened := opened g |}).

(** [f"{word}: {freq}\n"] *)
Definition line (p : entry) : string :=
  (fst p ++ ": " ++ NilEmpty.string_of_uint (Nat.to_uint (snd p)) ++ nl)%string.

(** [for word, freq in pairs: output_box.insert(tk.END, f"{word}: {freq}\n")] *)
Fixpoint show (pairs : list entry) : M unit :=
  match pairs with
  | [] => ret tt
  | p :: r => box_insert (line p) ;; show r
  end.

Definition not_found : string := ("Book was not found." ++ nl)%string.
Definition please_enter : string := ("Please enter a title or URL." ++ nl)%string.

(** [s.split(sep)] *)
Fixpoint split_on (sep : ascii) (l : list ascii) : list (list ascii) :=
  match l with
  | [] => [[]]
  | c :: r =>
      if Ascii.eqb c sep then [] :: split_on sep r
      else match split_on sep r with
           | p :: ps => (c :: p) :: ps
           | [] => [[c]]
           end
  end.

(** [f"https://www.gutenberg.org/ebooks/search/?query={query}"] *)
Definition search_url_of (query : string) : string :=
  ("https://www.gutenberg.org/ebooks/search/?query=" ++ query)%string.

(** [f"https://www.gutenberg.org/files/{book_id}/{book_id}-0.txt"] *)
Definition text_url_of (book_id : string) : string :=
  ("https://www.gutenberg.org/files/" ++ book_id ++ "/" ++ book_id
     ++ "-0.txt")%string.

(** [link.split('/')[-1]] on a link that is a [str]. *)
Definition book_id_of (link : string) : string :=
  str (last (split_on "/"%char (chars link)) []).

(** [link.split('/')[-1]]; a [None] link has no [split]. *)
Definition last_segment (link : option string) : M string :=
  match link with
  | None => raise none_has_no_split
  | Some s => ret (book_id_of s)
  end.

(** A name that neither the module nor [from tkinter import *] binds. *)
Definition unbound_global (name : string) : M string :=
  raise (name_not_defined name).

(** [parser.feed(html)] as a whole: the callbacks on the start tags handed
    over, then the exception of the scanner if it has one; it returns
    [parser.book_links]. *)
Definition parser_feed (W : World) (html : string) : exn + list (option string) :=
  match extract_links (start_tags W html) with
  | inl e => inl e
  | inr links =>
      match scanner_error W html with
      | Some e => inl e
      | None => inr links
      end
  end.

Section Program.
Variable W : World.

(** [urllib.request.urlopen(url)] then [response.read().decode('utf-8')] *)
Definition fetch (url : string) : M string :=
  fun g => (urlopen_text W url,
            {| database := database g; output_box := output_box g;
               opened := opened g ++ [url] |}).

(** [parser = GutenbergSearchParser(); parser.feed(html)] *)
Definition parse (html : string) : M (list (option string)) :=
  match parser_feed W html with
  | inl e => raise e
  | inr links => ret links
  end.

(** Lines 133-138 and 172-177: both inserts and the commit, as one
    transaction. *)
Definition persist (title : string) (pairs : list entry) : M unit :=
  fun g => match write_error W with
           | Some e => (inl e, g)
           | None =>
               (inr tt,
                {| database :=
                     insert_words title pairs (insert_or_ignore title (database g));
                   output_box := output_box g; opened := opened g |})
           end.

(** [fetch_and_process_book], lines 105-146 *)
Definition fetch_and_process_book (title : string) : M unit :=
  try_except
    (let query := quote W title in
     let search_url := search_url_of query in
     html <- fetch search_url ;;
     links <- parse html ;;
     match links with
     | [] => box_insert not_found
     | link0 :: _ =>
         book_id <- last_segment link0 ;;
         let text_url := text_url_of book_id in
         text <- fetch text_url ;;
         let top_words := top_words text in
         persist title top_words ;;
         box_delete ;;
         show top_words
     end)
    (fun _ => box_insert not_found).

(** [search_book], lines 79-93, on a books.db that can be read: [results]
    is what the SELECT of lines 79-85 returns.  (The read stands outside
    every [try]; a click on which sqlite3 fails there is not among the clicks
    the model follows.) *)
Definition search_book (title : string) : M unit :=
  fun g =>
    let results := select_top_words title (database g) in
    (box_delete ;;
     match results with
     | _ :: _ => show results
     | [] => fetch_and_process_book title
     end) g.

(** [process_input], lines 157-190; the two arguments are what
    [title_entry.get()] and [url_entry.get()] return. *)
Definition process_input (title_entry url_entry : string) : M unit :=
  let title := strip title_entry in
  let url := strip url_entry in
  if negb (title =? EmptyString)%string then search_book title
  else if negb (url =? EmptyString)%string then
    try_except
      (text <- fetch url ;;
       let top_words := top_words text in
       extracted_title <- unbound_global "extracted_title" ;;
       persist extracted_title top_words ;;
       box_delete ;;
       show top_words)
      (fun e => box_delete ;; box_insert ("Error: " ++ exn_str e ++ nl)%string)
  else
    box_delete ;; box_insert please_enter.

End Program.

(** The window after [setup_database()] on a fresh books.db. *)
Definition start : GUI :=
  {| database := setup_database; output_box := EmptyString; opened := [] |}.

(** The states the program reaches from [start]: one click after another,
    each with its own inputs and its own outside world. *)
Inductive reachable : GUI -> Prop :=
| reach_start : reachable start
| reach_click : forall g W title_entry url_entry,
    reachable g ->
    reachable (snd (process_input W title_entry url_entry g)).

(** The exception the direct-URL branch ends with. *)
Definition direct_url_error (W : World) (url : string) : exn :=
  match urlopen_text W url with
  | inl e => e
  | inr _ => name_not_defined "extracted_title"
  end.

(** The state once the output box is emptied. *)
Definition cleared (g : GUI) : GUI :=
  {| database := database g; output_box := EmptyString; opened := opened g |}.

(** The text the output box shows for a list of pairs. *)
Definition listing (pairs : list entry) : string :=
  fold_right (fun p rest => (line p ++ rest)%string) EmptyString pairs.

(** The ways the remote part of a title lookup fails. *)
Inductive lookup_failure (W : World) (title : string) : Prop :=
| search_request_fails e :
    urlopen_text W (search_url_of (quote W title)) = inl e ->
    lookup_failure W title
| parser_raises html e :
    urlopen_text W (search_url_of (quote W title)) = inr html ->
    parser_feed W html = inl e ->
    lookup_failure W title
| no_link html :
    urlopen_text W (search_url_of (quote W title)) = inr html ->
    parser_feed W html = inr [] ->
    lookup_failure W title
| link_without_value html rest :
    urlopen_text W (search_url_of (quote W title)) = inr html ->
    parser_feed W html = inr (None :: rest) ->
    lookup_failure W title
| text_request_fails html link rest e :
    urlopen_text W (search_url_of (quote W title)) = inr html ->
    parser_feed W html = inr (Some link :: rest) ->
    urlopen_text W (text_url_of (book_id_of link)) = inl e ->
    lookup_failure W title
| persist_fails html link rest text e :
    urlopen_text W (search_url_of (quote W title)) = inr html ->
    parser_feed W html = inr (Some link :: rest) ->
    urlopen_text W (text_url_of (book_id_of link)) = inr text ->
    write_error W = Some e ->
    lookup_failure W title.

(** The remote part of a title lookup goes through, on the text [text]. *)
Definition lookup_succeeds (W : World) (title text : string) : Prop :=
  exists html link rest,
    urlopen_text W (search_url_of (quote W title)) = inr html /\
    parser_feed W html = inr (Some link :: rest) /\
    urlopen_text W (text_url_of (book_id_of link)) = inr text /\
    write_error W = None.

(** The Words table keeps at most ten rows per title, each title with its
    Books row. *)
Definition words_bounded (d : db) : Prop :=
  forall t, In t (map book_title (Words d)) ->
            List.length (rows_of t d) <= 10 /\ In t (Books d).

End App.

(* ===================================================================== *)
(** ** Sample inputs *)
(* ===================================================================== *)

Module Examples.
Import Exn Parser Store App.

(** The text of the tokenization example. *)
Definition cat_dog : string := "Cat cat dog dog dog 'hi' 12345 a an".

(** [<li class="booklink">] and [<a href="...">] *)
Definition booklink : start_tag := StartTag "li" [("class", Some "booklink")].
Definition anchor (href : string) : start_tag := StartTag "a" [("href", Some href)].

(** [<li class="booklink"><a href="/ebooks/111">X</a></li>] *)
Definition one_result : list start_tag := [booklink; anchor "/ebooks/111"].

(** [<li class><a href="/ebooks/111">X</a></li>] *)
Definition valueless_class : list start_tag :=
  [StartTag "li" [("class", None)]; anchor "/ebooks/111"].

(** A catalog that answers every search with [one_result] and serves one
    text under every other URL. *)
Definition online : World :=
  {| urlopen_text := fun url =>
       if String.prefix "https://www.gutenberg.org/ebooks/search/" url
       then inr "<li class=booklink><a href=/ebooks/111>X</a></li>"%string
       else inr "The whale, the sea; the whale!"%string;
     quote := fun s => s;
     start_tags := fun _ => one_result;
     scanner_error := fun _ => None;
     write_error := None |}.

(** No network at all. *)
Definition offline : World :=
  {| urlopen_text := fun _ =>
       inl (Raise URLError "<urlopen error [Errno -2] Name or service not known>");
     quote := fun s => s;
     start_tags := fun _ => [];
     scanner_error := fun _ => None;
     write_error := None |}.

(** A store that already holds the words of one book. *)
Definition whale_store : GUI :=
  {| database := {| Books := ["Moby Dick"];
                    Words := [Row "Moby Dick" "sea" 40; Row "Moby Dick" "whale" 50] |};
     output_box := EmptyString;
     opened := [] |}.

End Examples.

(* ===================================================================== *)
(** ** Vocabulary for the further properties *)
(* ===================================================================== *)

Module Shapes.
Import Chars Counting Exn Parser LinkRule Store App.

(** [sep.join(pieces)], the inverse of [split]. *)
Fixpoint join (sep : ascii) (pieces : list (list ascii)) : list ascii :=
  match pieces with
  | [] => []
  | p :: rest =>
      match rest with
      | [] => p
      | _ :: _ => p ++ sep :: join sep rest
      end
  end.

(** [s.rstrip()] on the characters: [strip] is [lstrip] then [rstrip]. *)
Definition rstrip (l : list ascii) : list ascii := rev (lstrip (rev l)).

(** The number of lines of a text: its line feeds. *)
Definition lines (s : string) : nat :=
  List.length (filter (Ascii.eqb (ascii_of_nat 10)) (chars s)).

(** A word as the tokenizer produces them: lower-case letters a..z, at least
    three. *)
Definition lowercase_word (w : string) : Prop :=
  3 <= String.length w /\ Forall (fun c => between 97 122 c = true) (chars w).

(** The only start tags [handle_starttag] looks at. *)
Definition li_or_a (t : start_tag) : bool :=
  (tag t =? "li")%string || (tag t =? "a")%string.

(** A list item whose class attribute is written without a value. *)
Definition valueless_li (t : start_tag) : bool :=
  (tag t =? "li")%string &&
  match dict_get "class" (attrs t) with
  | Some None => true
  | _ => false
  end.

(** A row as [fetch_and_process_book] writes them. *)
Definition written_row (d : db) (r : row) : Prop :=
  book_title r <> EmptyString /\ strip (book_title r) = book_title r /\
  In (book_title r) (Books d) /\
  lowercase_word (word r) /\ 1 <= frequency r.

(** A catalog whose one book has no word of three letters. *)
Definition wordless : World :=
  {| urlopen_text := fun url =>
       if String.prefix "https://www.gutenberg.org/ebooks/search/" url
       then inr "<li class=booklink><a href=/ebooks/7>X</a></li>"%string
       else inr "I am 42, so it is."%string;
     quote := fun s => s;
     start_tags := fun _ => Examples.one_result;
     scanner_error := fun _ => None;
     write_error := None |}.

(** A catalog whose search page ends in a marked section the scanner of
    HTMLParser cannot read: the result before it is handed over, then the
    scanner raises. *)
Definition broken_markup : World :=
  {| urlopen_text := fun _ =>
       inr "<li class=booklink><a href=/ebooks/111>X</a></li><![zz["%string;
     quote := fun s => s;
     start_tags := fun _ => Examples.one_result;
     scanner_error := fun _ =>
       Some (Raise AssertionError "unknown status keyword 'zz' in marked section");
     write_error := None |}.

End Shapes.

(* ===================================================================== *)
(** ** Facts about the tokenizer *)
(* ===================================================================== *)

Module RegexFacts.
Import Chars Regex Rule.

Lemma letter_is_word c : is_letter c = true -> is_word c = true.
Proof. unfold is_word. intros ->. reflexivity. Qed.

Lemma letters_prefix_span l : letters_prefix l = span_len is_letter l.
Proof. induction l as [|c r IH]; simpl; [|rewrite IH]; reflexivity. Qed.

Lemma span_len_le p l : span_len p l <= List.length l.
Proof. induction l as [|c r IH]; simpl; [|destruct (p c); simpl]; lia. Qed.

Lemma span_len_inside p l j :
  j < span_len p l -> exists c, nth_error l j = Some c /\ p c = true.
Proof.
  revert j. induction l as [|c r IH]; simpl; intros j Hj; [lia|].
  destruct (p c) eqn:Hc; [|lia].
  destruct j as [|j]; simpl; [eauto|]. apply IH. lia.
Qed.

Lemma span_len_stop p l :
  match nth_error l (span_len p l) with
  | Some c => p c = false
  | None => True
  end.
Proof.
  induction l as [|c r IH]; simpl; [exact I|].
  destruct (p c) eqn:Hc; simpl; [exact IH | exact Hc].
Qed.

Lemma letters_le_word l : span_len is_letter l <= span_len is_word l.
Proof.
  induction l as [|c r IH]; simpl; [lia|].
  destruct (is_letter c) eqn:Hc; [|lia].
  rewrite (letter_is_word _ Hc). lia.
Qed.

Lemma forallb_firstn_span p l m :
  m <= List.length l ->
  forallb p (firstn m l) = (m <=? span_len p l).
Proof.
  revert m. induction l as [|c r IH]; intros [|m] Hm; simpl in *;
    try reflexivity; try lia.
  destruct (p c); simpl; [apply IH; lia | reflexivity].
Qed.

Lemma hd_skipn {A} (l : list A) n : hd_error (skipn n l) = nth_error l n.
Proof.
  revert n. induction l as [|c r IH]; intros [|n]; simpl; try reflexivity.
  apply IH.
Qed.

(** The runs of a list that starts inside class [p]: the first run is the
    longest prefix in [p], the others are the runs of what follows it. *)
Lemma runs_span p c r :
  p c = true ->
  runs p (c :: r) =
  firstn (S (span_len p r)) (c :: r) :: runs p (skipn (span_len p r) r).
Proof.
  revert c. induction r as [|d r IH]; intros c Hc.
  - simpl. rewrite Hc. reflexivity.
  - change (runs p (c :: d :: r))
      with (if p c then
              if p d then match runs p (d :: r) with
                          | run :: rest => (c :: run) :: rest
                          | [] => [[c]]
                          end
              else [c] :: runs p (d :: r)
            else runs p (d :: r)).
    rewrite Hc. cbn [span_len]. destruct (p d) eqn:Hd.
    + rewrite (IH d Hd). reflexivity.
    + reflexivity.
Qed.

(** ** The scan *)

Lemma findall_skip l : forall k prev,
  0 < k -> k <= List.length l ->
  findall_from k prev l = findall_from 0 (nth_error l (k - 1)) (skipn k l).
Proof.
  induction l as [|c r IH]; intros k prev Hk Hle; simpl in Hle; [lia|].
  destruct k as [|k]; [lia|]. cbn [findall_from skipn].
  destruct k as [|k].
  - reflexivity.
  - rewrite IH by (simpl; lia).
    replace (S (S k) - 1) with (S k) by lia.
    replace (S k - 1) with k by lia. reflexivity.
Qed.

Lemma match_here_wordy p1 p2 l :
  wordy p1 = wordy p2 -> match_here p1 l = match_here p2 l.
Proof. unfold match_here, boundary. intros ->. reflexivity. Qed.

Lemma findall_wordy p1 p2 l :
  wordy p1 = wordy p2 -> findall_from 0 p1 l = findall_from 0 p2 l.
Proof.
  intros H. destruct l as [|c r]; [reflexivity|].
  cbn [findall_from]. rewrite (match_here_wordy p1 p2 _ H). reflexivity.
Qed.

Lemma match_here_nonword prev c r :
  is_word c = false -> match_here prev (c :: r) = None.
Proof.
  intros Hc. unfold match_here. cbn [hd_error letters_prefix].
  destruct (is_letter c) eqn:Hl.
  - rewrite (letter_is_word _ Hl) in Hc. discriminate.
  - simpl. destruct (boundary prev (Some c)); reflexivity.
Qed.

(** Past the first character of a word nothing matches before the word
    ends. *)
Lemma findall_inside l : forall prev,
  wordy prev = true ->
  findall_from 0 prev l = findall_from 0 None (skipn (span_len is_word l) l).
Proof.
  induction l as [|c r IH]; intros prev Hp; [reflexivity|].
  cbn [span_len]. destruct (is_word c) eqn:Hc.
  - cbn [findall_from skipn].
    assert (Hm : match_here prev (c :: r) = None).
    { unfold match_here, boundary. rewrite Hp. simpl. rewrite Hc. reflexivity. }
    rewrite Hm. apply IH. exact Hc.
  - cbn [skipn findall_from].
    rewrite !match_here_nonword by exact Hc. reflexivity.
Qed.

Lemma findall_after_word prev l :
  wordy (hd_error l) = false ->
  findall_from 0 prev l = findall_from 0 None l.
Proof.
  destruct l as [|c r]; [reflexivity|]. simpl. intros Hc.
  rewrite !match_here_nonword by exact Hc. reflexivity.
Qed.

(** ** Backtracking never helps: a shorter run of letters ends between two
    letters, where [\b] does not hold. *)

Lemma boundary_after_word a next :
  is_word a = true -> boundary (Some a) next = negb (wordy next).
Proof. unfold boundary. cbn [wordy]. intros ->. reflexivity. Qed.

Lemma backtrack_short l : forall k,
  k < span_len is_letter l -> backtrack k l = None.
Proof.
  induction k as [|k IH]; intros Hk; [reflexivity|].
  cbn [backtrack].
  destruct (span_len_inside is_letter l k) as (a & Ha & La); [lia|].
  destruct (span_len_inside is_letter l (S k)) as (b & Hb & Lb); [lia|].
  rewrite Ha, Hb, (boundary_after_word a _ (letter_is_word _ La)).
  cbn [wordy]. rewrite (letter_is_word _ Lb). cbn [negb].
  rewrite andb_false_r. apply IH. lia.
Qed.

Lemma backtrack_full l :
  backtrack (span_len is_letter l) l =
  if (3 <=? span_len is_letter l) &&
     negb (wordy (nth_error l (span_len is_letter l)))
  then Some (span_len is_letter l) else None.
Proof.
  destruct (span_len is_letter l) as [|n] eqn:E; [reflexivity|].
  cbn [backtrack].
  destruct (span_len_inside is_letter l n) as (a & Ha & La); [lia|].
  rewrite Ha, (boundary_after_word a _ (letter_is_word _ La)).
  destruct ((3 <=? S n) && negb (wordy (nth_error l (S n)))); [reflexivity|].
  apply backtrack_short. lia.
Qed.

(** The pattern matches at the start of a word exactly when the whole word is
    a token, and then it matches the whole word. *)
Lemma match_here_word c r :
  is_word c = true ->
  match_here None (c :: r) =
  let run := firstn (S (span_len is_word r)) (c :: r) in
  if is_token run then Some run else None.
Proof.
  intros Hc. set (l := c :: r).
  assert (Hm : span_len is_word l = S (span_len is_word r))
    by (subst l; simpl; rewrite Hc; reflexivity).
  rewrite <- Hm. cbv zeta.
  unfold match_here, boundary. cbn [hd_error wordy l]. rewrite Hc. fold l.
  simpl xorb. rewrite letters_prefix_span, backtrack_full.
  unfold is_token.
  rewrite forallb_firstn_span by apply span_len_le.
  rewrite length_firstn, (Nat.min_l _ _ (span_len_le is_word l)).
  pose proof (letters_le_word l) as Hle.
  destruct (Nat.eq_dec (span_len is_letter l) (span_len is_word l)) as [E|NE].
  - rewrite E.
    assert (Hs : wordy (nth_error l (span_len is_word l)) = false).
    { pose proof (span_len_stop is_word l) as H.
      destruct (nth_error l (span_len is_word l)); [exact H | reflexivity]. }
    rewrite Hs, Nat.leb_refl. cbn [negb andb]. rewrite andb_true_r.
    destruct (3 <=? span_len is_word l); reflexivity.
  - assert (Hlt : span_len is_letter l < span_len is_word l) by lia.
    destruct (span_len_inside is_word l _ Hlt) as (a & Ha & Wa).
    rewrite Ha. cbn [wordy]. rewrite Wa. cbn [negb]. rewrite andb_false_r.
    apply Nat.leb_gt in Hlt. rewrite Hlt. reflexivity.
Qed.

(** The scan returns the tokens among the maximal runs of word characters. *)
Lemma findall_runs_bounded n : forall l,
  List.length l <= n ->
  findall_from 0 None l = filter is_token (runs is_word l).
Proof.
  induction n as [|n IH]; intros l Hn.
  - destruct l; [reflexivity | simpl in Hn; lia].
  - destruct l as [|c r]; [reflexivity|]. simpl in Hn.
    destruct (is_word c) eqn:Hc.
    + rewrite (runs_span is_word c r Hc). cbn [findall_from filter].
      rewrite (match_here_word c r Hc). cbv zeta.
      set (m := span_len is_word r).
      assert (Hm : m <= List.length r) by apply span_len_le.
      assert (Hrest : findall_from 0 None (skipn m r) =
                      filter is_token (runs is_word (skipn m r))).
      { apply IH. rewrite length_skipn. lia. }
      assert (Hstop : wordy (hd_error (skipn m r)) = false).
      { rewrite hd_skipn. pose proof (span_len_stop is_word r) as H.
        fold m in H. destruct (nth_error r m); [exact H | reflexivity]. }
      destruct (is_token (firstn (S m) (c :: r))) eqn:Ht.
      * f_equal. rewrite <- Hrest.
        assert (Hlen : List.length (firstn (S m) (c :: r)) = S m).
        { rewrite length_firstn. simpl. lia. }
        rewrite Hlen. replace (S m - 1) with m by lia.
        destruct m as [|m'] eqn:Em.
        -- apply findall_after_word. exact Hstop.
        -- rewrite findall_skip by lia. apply findall_after_word. exact Hstop.
      * rewrite <- Hrest. apply (findall_inside r (Some c)). exact Hc.
    + cbn [findall_from runs]. rewrite Hc.
      rewrite (match_here_nonword None c r Hc).
      rewrite (findall_wordy (Some c) None r) by (simpl; exact Hc).
      apply IH. lia.
Qed.

Lemma findall_runs l :
  findall_from 0 None l = filter is_token (runs is_word l).
Proof. apply (findall_runs_bounded (List.length l)). lia. Qed.

End RegexFacts.

(* ===================================================================== *)
(** ** Facts about Counter and most_common *)
(* ===================================================================== *)

Module CountingFacts.
Import Counting.

(** *** [before] *)

Lemma before_In {A} (l : list A) x y : before l x y -> In x l /\ In y l.
Proof.
  induction l as [|z r IH]; simpl; [tauto|].
  intros [[-> Hy] | H]; [tauto|]. apply IH in H. tauto.
Qed.

Lemma before_cons_head {A} (l : list A) x y : In y l -> before (x :: l) x y.
Proof. simpl. auto. Qed.

Lemma firstn_In {A} n : forall (l : list A) x, In x (firstn n l) -> In x l.
Proof.
  induction n as [|n IH]; intros [|z r] x; simpl; try tauto.
  intros [-> | H]; auto.
Qed.

Lemma before_firstn {A} n : forall (l : list A) x y,
  before (firstn n l) x y -> before l x y.
Proof.
  induction n as [|n IH]; intros [|z r] x y; simpl; try tauto.
  intros [[-> Hy] | H].
  - left. split; [reflexivity|]. revert Hy. apply firstn_In.
  - right. apply IH. exact H.
Qed.

Lemma before_nth {A} (l : list A) : forall i j x y,
  i < j -> nth_error l i = Some x -> nth_error l j = Some y -> before l x y.
Proof.
  induction l as [|z r IH]; intros i j x y Hij Hi Hj.
  - destruct i; discriminate.
  - destruct j as [|j]; [lia|]. simpl in Hj. destruct i as [|i]; simpl in Hi.
    + injection Hi as ->. left. split; [reflexivity|].
      eapply nth_error_In. exact Hj.
    + right. apply (IH i j); [lia | assumption | assumption].
Qed.

Lemma before_map {A B} (f : A -> B) (l : list A) x y :
  before l x y -> before (map f l) (f x) (f y).
Proof.
  induction l as [|z r IH]; simpl; [tauto|].
  intros [[-> Hy] | H]; [left | right; auto].
  split; [reflexivity | apply in_map; exact Hy].
Qed.

Lemma before_snoc {A} (l : list A) w x y :
  before (l ++ [w]) x y -> before l x y \/ (In x l /\ y = w).
Proof.
  induction l as [|z r IH]; simpl.
  - intros [[_ []] | []].
  - intros [[-> Hy] | H].
    + apply in_app_or in Hy. destruct Hy as [Hy | [<- | []]]; auto.
    + apply IH in H. tauto.
Qed.

(** *** The sort *)

Lemma insert_desc_perm x l : Permutation (x :: l) (insert_desc x l).
Proof.
  induction l as [|y r IH]; simpl; [reflexivity|].
  destruct (snd y <=? snd x); [reflexivity|].
  rewrite perm_swap. apply perm_skip. exact IH.
Qed.

Lemma sorted_desc_perm l : Permutation l (sorted_desc l).
Proof.
  induction l as [|x r IH]; simpl; [constructor|].
  rewrite <- insert_desc_perm. apply perm_skip. exact IH.
Qed.

Lemma sorted_desc_In l x : In x (sorted_desc l) <-> In x l.
Proof.
  split; apply Permutation_in;
    [symmetry | idtac]; apply sorted_desc_perm.
Qed.

Lemma insert_desc_sorted x l :
  StronglySorted desc l -> StronglySorted desc (insert_desc x l).
Proof.
  induction 1 as [|y r Hr IH Hy]; simpl.
  - repeat constructor.
  - destruct (snd y <=? snd x) eqn:E.
    + apply Nat.leb_le in E. constructor; [constructor; assumption|].
      constructor; [exact E|].
      eapply Forall_impl; [|exact Hy]. unfold desc. intros; lia.
    + apply Nat.leb_gt in E. constructor; [exact IH|].
      apply Forall_forall. intros z Hz.
      apply (Permutation_in _ (Permutation_sym (insert_desc_perm x r))) in Hz.
      destruct Hz as [<- | Hz]; [unfold desc; lia|].
      rewrite Forall_forall in Hy. auto.
Qed.

Lemma sorted_desc_sorted l : StronglySorted desc (sorted_desc l).
Proof.
  induction l as [|x r IH]; simpl; [constructor|].
  apply insert_desc_sorted. exact IH.
Qed.

Lemma firstn_sorted {A} (R : A -> A -> Prop) n : forall l,
  StronglySorted R l -> StronglySorted R (firstn n l).
Proof.
  induction n as [|n IH]; intros l H; [constructor|].
  destruct H as [|x r Hr Hx]; simpl; [constructor|].
  constructor; [apply IH; exact Hr|].
  apply Forall_forall. intros y Hy. apply firstn_In in Hy.
  rewrite Forall_forall in Hx. auto.
Qed.

(** Where two entries of the sorted list come from. *)
Lemma before_insert_desc x l a b :
  before (insert_desc x l) a b ->
  (a = x /\ In b l) \/ before l a b \/ (b = x /\ snd x < snd a).
Proof.
  induction l as [|y r IH]; simpl.
  - intros [[_ []] | []].
  - destruct (snd y <=? snd x) eqn:E; simpl.
    + intros [[-> Hb] | H]; [left; auto | right; left; exact H].
    + apply Nat.leb_gt in E. intros [[-> Hb] | H].
      * apply (Permutation_in _ (Permutation_sym (insert_desc_perm x r))) in Hb.
        destruct Hb as [<- | Hb]; [right; right; auto | right; left; auto].
      * apply IH in H. tauto.
Qed.

(** The sort is stable. *)
Lemma sorted_desc_stable l a b :
  before (sorted_desc l) a b -> snd a = snd b -> before l a b.
Proof.
  induction l as [|x r IH]; simpl; [tauto|].
  intros H E. apply before_insert_desc in H.
  destruct H as [[-> Hb] | [H | [-> Hlt]]].
  - left. split; [reflexivity|]. apply sorted_desc_In. exact Hb.
  - right. auto.
  - lia.
Qed.

(** *** The counter *)

Lemma has_key_In w c : has_key w c = true <-> In w (keys c).
Proof.
  unfold has_key. rewrite existsb_exists. split.
  - intros (k & Hk & E). apply String.eqb_eq in E. subst. exact Hk.
  - intros H. exists w. split; [exact H | apply String.eqb_refl].
Qed.

Lemma keys_incr w c :
  keys (incr w c) = if has_key w c then keys c else keys c ++ [w].
Proof.
  unfold has_key, keys. induction c as [|[k n] r IH]; simpl; [reflexivity|].
  rewrite (String.eqb_sym w k). destruct (k =? w)%string; simpl.
  - reflexivity.
  - rewrite IH. destruct (existsb (String.eqb w) (map fst r)); reflexivity.
Qed.

Lemma Counter_snoc ws w : Counter (ws ++ [w]) = incr w (Counter ws).
Proof. unfold Counter. rewrite fold_left_app. reflexivity. Qed.

(** The keys of the counter are the tokens. *)
Lemma keys_Counter ws k : In k (keys (Counter ws)) <-> In k ws.
Proof.
  revert k. induction ws as [|w ws IH] using rev_ind; intros k; [simpl; tauto|].
  rewrite Counter_snoc, keys_incr, in_app_iff. simpl.
  destruct (has_key w (Counter ws)) eqn:E.
  - apply has_key_In in E. apply IH in E. rewrite IH.
    split; [tauto|]. intros [H | [<- | []]]; assumption.
  - rewrite in_app_iff, IH. simpl. tauto.
Qed.

Lemma first_index_bound w l p : first_index w l = Some p -> p < List.length l.
Proof.
  revert p. induction l as [|x r IH]; simpl; intros p; [discriminate|].
  destruct (x =? w)%string.
  - intros [= <-]. lia.
  - destruct (first_index w r) as [q|]; simpl; [|discriminate].
    intros [= <-]. specialize (IH q eq_refl). lia.
Qed.

Lemma first_index_In w l : In w l -> exists p, first_index w l = Some p.
Proof.
  induction l as [|x r IH]; simpl; [tauto|].
  destruct (x =? w)%string eqn:E; [eauto|].
  intros [-> | H]; [rewrite String.eqb_refl in E; discriminate|].
  destruct (IH H) as (p & ->). simpl. eauto.
Qed.

Lemma first_index_None w l : ~ In w l -> first_index w l = None.
Proof.
  induction l as [|x r IH]; simpl; [reflexivity|]. intros H.
  destruct (x =? w)%string eqn:E.
  - apply String.eqb_eq in E. tauto.
  - rewrite IH by tauto. reflexivity.
Qed.

Lemma first_index_app_l w l l' p :
  first_index w l = Some p -> first_index w (l ++ l') = Some p.
Proof.
  revert p. induction l as [|x r IH]; simpl; intros p; [discriminate|].
  destruct (x =? w)%string; [trivial|].
  destruct (first_index w r) as [q|]; simpl; [|discriminate].
  intros [= <-]. rewrite (IH q eq_refl). reflexivity.
Qed.

Lemma first_index_new w l :
  ~ In w l -> first_index w (l ++ [w]) = Some (List.length l).
Proof.
  induction l as [|x r IH]; simpl; intros H.
  - rewrite String.eqb_refl. reflexivity.
  - destruct (x =? w)%string eqn:E.
    + apply String.eqb_eq in E. tauto.
    + rewrite IH by tauto. reflexivity.
Qed.

(** The keys of the counter stand in the order of their first occurrence. *)
Lemma keys_Counter_order ws : forall k1 k2,
  before (keys (Counter ws)) k1 k2 ->
  exists p1 p2,
    first_index k1 ws = Some p1 /\ first_index k2 ws = Some p2 /\ p1 < p2.
Proof.
  induction ws as [|w ws IH] using rev_ind; intros k1 k2; [simpl; tauto|].
  rewrite Counter_snoc, keys_incr.
  destruct (has_key w (Counter ws)) eqn:E.
  - intros H. destruct (IH _ _ H) as (p1 & p2 & H1 & H2 & Hlt).
    exists p1, p2. auto using first_index_app_l.
  - intros H. apply before_snoc in H. destruct H as [H | [H ->]].
    + destruct (IH _ _ H) as (p1 & p2 & H1 & H2 & Hlt).
      exists p1, p2. auto using first_index_app_l.
    + assert (Hw : ~ In w ws).
      { rewrite <- keys_Counter, <- has_key_In, E. discriminate. }
      apply (proj1 (keys_Counter ws k1)) in H.
      destruct (first_index_In _ _ H) as (p1 & H1).
      exists p1, (List.length ws).
      split; [apply first_index_app_l; exact H1|].
      split; [apply first_index_new; exact Hw|].
      eapply first_index_bound. exact H1.
Qed.

Lemma get_incr k w c :
  get k (incr w c) = if (w =? k)%string then S (get k c) else get k c.
Proof.
  induction c as [|[k' n] r IH]; simpl.
  - destruct (w =? k)%string; reflexivity.
  - destruct (k' =? w)%string eqn:E; simpl.
    + apply String.eqb_eq in E. subst k'.
      destruct (w =? k)%string; reflexivity.
    + rewrite IH. destruct (k' =? k)%string eqn:E'; [|reflexivity].
      apply String.eqb_eq in E'. subst k'.
      rewrite (String.eqb_sym w k), E. reflexivity.
Qed.

Lemma get_Counter ws k : get k (Counter ws) = count_occ string_dec ws k.
Proof.
  induction ws as [|w ws IH] using rev_ind; [reflexivity|].
  rewrite Counter_snoc, get_incr, count_occ_app, IH. simpl.
  destruct (string_dec w k) as [->|N].
  - rewrite String.eqb_refl. lia.
  - apply String.eqb_neq in N. rewrite N. lia.
Qed.

Lemma NoDup_keys_incr w c : NoDup (keys c) -> NoDup (keys (incr w c)).
Proof.
  intros H. rewrite keys_incr. destruct (has_key w c) eqn:E; [exact H|].
  apply NoDup_rev in H. rewrite <- (rev_involutive (keys c ++ [w])).
  apply NoDup_rev. rewrite rev_app_distr. simpl. constructor; [|exact H].
  rewrite <- in_rev, <- has_key_In, E. discriminate.
Qed.

Lemma NoDup_keys_Counter ws : NoDup (keys (Counter ws)).
Proof.
  induction ws as [|w ws IH] using rev_ind; [constructor|].
  rewrite Counter_snoc. apply NoDup_keys_incr. exact IH.
Qed.

Lemma get_In c : forall w n, NoDup (keys c) -> In (w, n) c -> get w c = n.
Proof.
  induction c as [|[k m] r IH]; simpl; intros w n Hd; [tauto|].
  inversion Hd as [|? ? Hk Hr]; subst.
  intros [[= -> ->] | H].
  - rewrite String.eqb_refl. reflexivity.
  - destruct (k =? w)%string eqn:E; [|apply IH; assumption].
    apply String.eqb_eq in E. subst k. exfalso. apply Hk.
    change w with (fst (w, n)). apply in_map. exact H.
Qed.

(** Every entry of the counter holds the number of occurrences of its word. *)
Lemma Counter_counts ws w n :
  In (w, n) (Counter ws) -> n = count_occ string_dec ws w /\ In w ws.
Proof.
  intros H. split.
  - rewrite <- get_Counter. symmetry.
    apply get_In; [apply NoDup_keys_Counter | exact H].
  - apply keys_Counter. change w with (fst (w, n)). apply in_map. exact H.
Qed.

Lemma most_common_In n c x : In x (most_common n c) -> In x c.
Proof.
  unfold most_common. intros H. apply firstn_In in H.
  apply sorted_desc_In. exact H.
Qed.

End CountingFacts.

(* ===================================================================== *)
(** ** Facts about the link extractor *)
(* ===================================================================== *)

Module ParserFacts.
Import Exn Parser LinkRule.

Lemma is_result_item_marker t :
  ((tag t =? "li")%string = true -> dict_get "class" (attrs t) <> Some None) ->
  is_result_item (tag t) (attrs t) = inr (is_marker t).
Proof.
  unfold is_result_item, is_marker. intros H.
  destruct (tag t =? "li")%string; [|reflexivity].
  destruct (dict_get "class" (attrs t)) as [[cls|]|]; try reflexivity.
  exfalso. apply H; reflexivity.
Qed.

Lemma marker_is_no_anchor t : is_marker t = true -> (tag t =? "a")%string = false.
Proof.
  unfold is_marker. intros H. apply andb_prop in H. destruct H as [H _].
  apply String.eqb_eq in H. rewrite H. reflexivity.
Qed.

Lemma classes_have_values_cons t doc :
  classes_have_values (t :: doc) ->
  ((tag t =? "li")%string = true -> dict_get "class" (attrs t) <> Some None) /\
  classes_have_values doc.
Proof.
  unfold classes_have_values. intros H. split.
  - apply H. left. reflexivity.
  - intros u Hu. apply H. right. exact Hu.
Qed.

(** Fed a document, the parser adds to its links what the flag owes and then
    the links of the markers of the document. *)
Lemma feed_marked doc : forall links flag,
  classes_have_values doc ->
  exists flag',
    feed doc (Self links flag) =
    inr (Self (links ++ pending flag doc ++ marked_links doc) flag').
Proof.
  induction doc as [|t r IH]; intros links flag Hd.
  - exists flag. simpl. unfold pending. simpl.
    destruct flag; rewrite app_nil_r; reflexivity.
  - apply classes_have_values_cons in Hd. destruct Hd as [Ht Hr].
    cbn [feed]. unfold handle_starttag.
    rewrite (is_result_item_marker t Ht).
    cbn [marked_links]. unfold pending at 1. cbn [first_anchor].
    destruct (is_marker t) eqn:Hm.
    + cbn [in_result book_links]. rewrite (marker_is_no_anchor t Hm).
      cbn [andb]. destruct (IH links true Hr) as (f' & ->). exists f'.
      unfold pending. destruct flag; destruct (first_anchor r); reflexivity.
    + unfold anchor_href. destruct flag; cbn [in_result book_links andb].
      * destruct (tag t =? "a")%string.
        -- destruct (dict_get "href" (attrs t)) as [h|].
           ++ destruct (IH (links ++ [h]) false Hr) as (f' & ->). exists f'.
              unfold pending. simpl. rewrite <- app_assoc. reflexivity.
           ++ destruct (IH links true Hr) as (f' & ->). exists f'.
              reflexivity.
        -- destruct (IH links true Hr) as (f' & ->). exists f'. reflexivity.
      * destruct (IH links false Hr) as (f' & ->). exists f'. reflexivity.
Qed.

Lemma extract_links_marked doc :
  classes_have_values doc -> extract_links doc = inr (marked_links doc).
Proof.
  intros H. unfold extract_links, init.
  destruct (feed_marked doc [] false H) as (f' & ->). reflexivity.
Qed.

Lemma marked_links_no_marker doc :
  (forall t, In t doc -> is_marker t = false) -> marked_links doc = [].
Proof.
  induction doc as [|t r IH]; intros H; [reflexivity|]. simpl.
  rewrite (H t) by (left; reflexivity). apply IH.
  intros u Hu. apply H. right. exact Hu.
Qed.

Lemma first_anchor_no_anchor doc :
  (forall t, In t doc -> anchor_href t = None) -> first_anchor doc = None.
Proof.
  induction doc as [|t r IH]; intros H; [reflexivity|]. simpl.
  destruct (is_marker t); [reflexivity|].
  rewrite (H t) by (left; reflexivity). apply IH.
  intros u Hu. apply H. right. exact Hu.
Qed.

Lemma marked_links_no_anchor doc :
  (forall t, In t doc -> anchor_href t = None) -> marked_links doc = [].
Proof.
  induction doc as [|t r IH]; intros H; [reflexivity|]. simpl.
  assert (Hr : forall u, In u r -> anchor_href u = None)
    by (intros u Hu; apply H; right; exact Hu).
  rewrite (first_anchor_no_anchor r Hr), (IH Hr).
  destruct (is_marker t); reflexivity.
Qed.

End ParserFacts.

(* ===================================================================== *)
(** ** Facts about the store *)
(* ===================================================================== *)

Module StoreFacts.
Import Counting CountingFacts Store.

Lemma sorted_desc_nil l : sorted_desc l = [] -> l = [].
Proof.
  intros H. apply Permutation_nil. rewrite <- H. symmetry.
  apply sorted_desc_perm.
Qed.

Lemma select_length t d : List.length (select_top_words t d) <= 10.
Proof. unfold select_top_words. rewrite length_firstn. apply Nat.le_min_l. Qed.

Lemma select_sorted t d : StronglySorted desc (select_top_words t d).
Proof. apply firstn_sorted, sorted_desc_sorted. Qed.

Lemma select_In t d w f :
  In (w, f) (select_top_words t d) -> In (Row t w f) (Words d).
Proof.
  unfold select_top_words, rows_of. intros H.
  apply firstn_In, sorted_desc_In, in_map_iff in H.
  destruct H as ([t' w' f'] & [= -> ->] & H).
  apply filter_In in H. destruct H as [H E]. simpl in E.
  apply String.eqb_eq in E. subst t'. exact H.
Qed.

Lemma select_nil t d : select_top_words t d = [] <-> rows_of t d = [].
Proof.
  unfold select_top_words. split.
  - intros H. destruct (sorted_desc _) as [|x l] eqn:E; [|discriminate].
    apply sorted_desc_nil in E. destruct (rows_of t d); [reflexivity|].
    discriminate.
  - intros ->. reflexivity.
Qed.

Lemma rows_of_In t d : In t (map book_title (Words d)) <-> rows_of t d <> [].
Proof.
  unfold rows_of. split.
  - intros H. apply in_map_iff in H. destruct H as (r & <- & Hr).
    intros E.
    assert (Hin : In r (filter (fun r0 => (book_title r0 =? book_title r)%string)
                          (Words d))).
    { apply filter_In. split; [exact Hr | apply String.eqb_refl]. }
    rewrite E in Hin. exact Hin.
  - intros H.
    destruct (filter _ (Words d)) as [|r l] eqn:E; [congruence|].
    assert (Hin : In r (filter (fun r0 => (book_title r0 =? t)%string) (Words d)))
      by (rewrite E; left; reflexivity).
    apply filter_In in Hin. destruct Hin as [Hr Ht].
    apply String.eqb_eq in Ht. subst t. apply in_map. exact Hr.
Qed.

(** With at most ten rows for a title, the read returns all of them. *)
Lemma select_all t d :
  List.length (rows_of t d) <= 10 ->
  Permutation (map pair_of (rows_of t d)) (select_top_words t d).
Proof.
  intros H. unfold select_top_words. rewrite firstn_all2.
  - apply sorted_desc_perm.
  - rewrite <- (Permutation_length (sorted_desc_perm _)), length_map. exact H.
Qed.

Lemma has_title_In t l : has_title t l = true <-> In t l.
Proof.
  unfold has_title. rewrite existsb_exists. split.
  - intros (k & Hk & E). apply String.eqb_eq in E. subst. exact Hk.
  - intros H. exists t. split; [exact H | apply String.eqb_refl].
Qed.

Lemma insert_or_ignore_has t d : In t (Books (insert_or_ignore t d)).
Proof.
  unfold insert_or_ignore. destruct (has_title t (Books d)) eqn:E.
  - apply has_title_In. exact E.
  - simpl. apply in_or_app. right. left. reflexivity.
Qed.

Lemma insert_or_ignore_keeps t d x :
  In x (Books d) -> In x (Books (insert_or_ignore t d)).
Proof.
  unfold insert_or_ignore. destruct (has_title t (Books d)); [trivial|].
  simpl. intros H. apply in_or_app. left. exact H.
Qed.

Lemma insert_or_ignore_words t d : Words (insert_or_ignore t d) = Words d.
Proof. unfold insert_or_ignore. destruct (has_title t (Books d)); reflexivity. Qed.

Lemma insert_or_ignore_again t d :
  insert_or_ignore t (insert_or_ignore t d) = insert_or_ignore t d.
Proof.
  unfold insert_or_ignore at 1.
  rewrite (proj2 (has_title_In t _) (insert_or_ignore_has t d)). reflexivity.
Qed.

Lemma insert_or_ignore_NoDup t d :
  NoDup (Books d) -> NoDup (Books (insert_or_ignore t d)).
Proof.
  unfold insert_or_ignore. destruct (has_title t (Books d)) eqn:E; [trivial|].
  simpl. intros H. apply NoDup_rev in H.
  rewrite <- (rev_involutive (Books d ++ [t])). apply NoDup_rev.
  rewrite rev_app_distr. simpl. constructor; [|exact H].
  rewrite <- in_rev, <- has_title_In, E. discriminate.
Qed.

Lemma count_occ_one (l : list string) t :
  NoDup l -> In t l -> count_occ string_dec l t = 1.
Proof.
  intros Hd Hin. apply Nat.le_antisymm.
  - apply (proj1 (NoDup_count_occ string_dec l) Hd).
  - apply (proj1 (count_occ_In string_dec l t)) in Hin. lia.
Qed.

Lemma rows_of_written t t' pairs d :
  rows_of t' (insert_words t pairs (insert_or_ignore t d)) =
  rows_of t' d ++
  (if (t =? t')%string then map (fun p => Row t (fst p) (snd p)) pairs else []).
Proof.
  unfold rows_of, insert_words. cbn [Words].
  rewrite insert_or_ignore_words, filter_app. f_equal.
  induction pairs as [|p r IH]; simpl.
  - destruct (t =? t')%string; reflexivity.
  - rewrite IH. destruct (t =? t')%string; reflexivity.
Qed.

End StoreFacts.

(* ===================================================================== *)
(** ** Facts about the three functions *)
(* ===================================================================== *)

Module AppFacts.
Import Chars Counting CountingFacts Exn Parser Store StoreFacts App.

Lemma append_assoc (a b c : string) : ((a ++ b) ++ c = a ++ (b ++ c))%string.
Proof. induction a as [|x a IH]; simpl; [|rewrite IH]; reflexivity. Qed.

Lemma append_nil_r (a : string) : (a ++ EmptyString)%string = a.
Proof. induction a as [|x a IH]; simpl; [|rewrite IH]; reflexivity. Qed.

(** The display loop appends the listing and changes nothing else. *)
Lemma show_run pairs : forall g,
  show pairs g =
  (inr tt, {| database := database g;
              output_box := (output_box g ++ listing pairs)%string;
              opened := opened g |}).
Proof.
  induction pairs as [|p r IH]; intros g.
  - simpl. unfold ret. rewrite append_nil_r. destruct g; reflexivity.
  - cbn [show listing fold_right]. unfold bind, box_insert. rewrite IH.
    cbn [database output_box opened]. rewrite append_assoc. reflexivity.
Qed.

Section Lookup.
Variable W : World.
Variable title : string.

Let search_url := search_url_of (quote W title).

(** Every failure of the remote part ends in the same state: the store as it
    was, the one message appended, nothing raised. *)
Lemma fetch_fails g :
  lookup_failure W title ->
  exists urls,
    fetch_and_process_book W title g =
    (inr tt, {| database := database g;
                output_box := (output_box g ++ not_found)%string;
                opened := opened g ++ search_url :: urls |}).
Proof.
  intros [e H | html e H1 H2 | html H1 H2 | html rest H1 H2
         | html link rest e H1 H2 H3 | html link rest text e H1 H2 H3 H4];
    unfold fetch_and_process_book, try_except, bind, fetch, parse.
  - rewrite H. exists []. reflexivity.
  - rewrite H1, H2. exists []. reflexivity.
  - rewrite H1, H2. exists []. reflexivity.
  - rewrite H1, H2. exists []. reflexivity.
  - rewrite H1, H2. cbn [ret raise last_segment]. rewrite H3.
    exists [text_url_of (book_id_of link)].
    cbn [box_insert database output_box opened].
    rewrite <- app_assoc. reflexivity.
  - rewrite H1, H2. cbn [ret raise last_segment]. rewrite H3.
    unfold persist. rewrite H4.
    exists [text_url_of (book_id_of link)].
    cbn [box_insert database output_box opened].
    rewrite <- app_assoc. reflexivity.
Qed.

(** A lookup that goes through writes the book and its words in one
    transaction and shows the listing alone. *)
Lemma fetch_succeeds text g :
  lookup_succeeds W title text ->
  exists url2,
    fetch_and_process_book W title g =
    (inr tt, {| database :=
                  insert_words title (top_words text)
                    (insert_or_ignore title (database g));
                output_box := listing (top_words text);
                opened := opened g ++ [search_url; url2] |}).
Proof.
  intros (html & link & rest & H1 & H2 & H3 & H4).
  exists (text_url_of (book_id_of link)).
  unfold fetch_and_process_book, try_except, bind, fetch, parse.
  rewrite H1, H2. cbn [ret raise last_segment]. rewrite H3.
  unfold persist. rewrite H4. unfold box_delete. rewrite show_run.
  cbn [database output_box opened]. rewrite <- app_assoc. reflexivity.
Qed.

(** The remote part either fails in one of the listed ways or goes through. *)
Lemma lookup_dichotomy :
  lookup_failure W title \/ exists text, lookup_succeeds W title text.
Proof.
  destruct (urlopen_text W (search_url_of (quote W title))) as [e|html] eqn:H1.
  { left. eapply search_request_fails; eassumption. }
  destruct (parser_feed W html) as [e|[|[link|] rest]] eqn:H2.
  - left. eapply parser_raises; eassumption.
  - left. eapply no_link; eassumption.
  - destruct (urlopen_text W (text_url_of (book_id_of link))) as [e|text] eqn:H3.
    + left. eapply text_request_fails; eassumption.
    + destruct (write_error W) as [e|] eqn:H4.
      * left. eapply persist_fails; eassumption.
      * right. exists text, html, link, rest. auto.
  - left. eapply link_without_value; eassumption.
Qed.

End Lookup.

Lemma search_book_hit W title g :
  select_top_words title (database g) <> [] ->
  search_book W title g =
  (inr tt, {| database := database g;
              output_box := listing (select_top_words title (database g));
              opened := opened g |}).
Proof.
  intros H. unfold search_book, bind, box_delete.
  destruct (select_top_words title (database g)) as [|p r]; [congruence|].
  rewrite show_run. reflexivity.
Qed.

Lemma search_book_miss W title g :
  select_top_words title (database g) = [] ->
  search_book W title g = fetch_and_process_book W title (cleared g).
Proof.
  intros H. unfold search_book, bind, box_delete. rewrite H. reflexivity.
Qed.

End AppFacts.

Module InputFacts.
Import Chars Counting CountingFacts Exn Parser Store StoreFacts App AppFacts.

Lemma process_input_title W title_entry url_entry g :
  strip title_entry <> EmptyString ->
  process_input W title_entry url_entry g = search_book W (strip title_entry) g.
Proof.
  intros H. unfold process_input. apply String.eqb_neq in H. rewrite H.
  reflexivity.
Qed.

Lemma process_input_url W title_entry url_entry g :
  strip title_entry = EmptyString ->
  strip url_entry <> EmptyString ->
  process_input W title_entry url_entry g =
  (inr tt,
   {| database := database g;
      output_box :=
        ("Error: " ++ exn_str (direct_url_error W (strip url_entry)) ++ nl)%string;
      opened := opened g ++ [strip url_entry] |}).
Proof.
  intros Ht Hu. unfold process_input. rewrite Ht. apply String.eqb_neq in Hu.
  rewrite Hu. cbn [String.eqb negb].
  unfold try_except, bind, fetch, direct_url_error.
  destruct (urlopen_text W (strip url_entry)) as [e|text]; reflexivity.
Qed.

Lemma process_input_empty W title_entry url_entry g :
  strip title_entry = EmptyString ->
  strip url_entry = EmptyString ->
  process_input W title_entry url_entry g =
  (inr tt, {| database := database g; output_box := please_enter;
              opened := opened g |}).
Proof.
  intros Ht Hu. unfold process_input. rewrite Ht, Hu. reflexivity.
Qed.

Lemma top_words_length text : List.length (top_words text) <= 10.
Proof.
  unfold top_words, most_common. rewrite length_firstn. apply Nat.le_min_l.
Qed.

(** One click leaves the store alone or writes the words of a title that had
    none. *)
Lemma process_input_database W title_entry url_entry g :
  database (snd (process_input W title_entry url_entry g)) = database g \/
  exists text,
    rows_of (strip title_entry) (database g) = [] /\
    database (snd (process_input W title_entry url_entry g)) =
    insert_words (strip title_entry) (top_words text)
      (insert_or_ignore (strip title_entry) (database g)).
Proof.
  destruct (string_dec (strip title_entry) EmptyString) as [Ht|Ht].
  - left. destruct (string_dec (strip url_entry) EmptyString) as [Hu|Hu].
    + rewrite process_input_empty by assumption. reflexivity.
    + rewrite process_input_url by assumption. reflexivity.
  - rewrite process_input_title by assumption.
    set (title := strip title_entry).
    destruct (select_top_words title (database g)) as [|p r] eqn:E.
    + rewrite search_book_miss by exact E.
      destruct (lookup_dichotomy W title) as [F | (text & S)].
      * left. destruct (fetch_fails W title (cleared g) F) as (urls & ->).
        reflexivity.
      * right. exists text. split; [apply select_nil; exact E|].
        destruct (fetch_succeeds W title text (cleared g) S) as (u & ->).
        reflexivity.
    + left. rewrite search_book_hit by (rewrite E; discriminate). reflexivity.
Qed.

Lemma words_bounded_write d t pairs :
  words_bounded d -> rows_of t d = [] -> List.length pairs <= 10 ->
  words_bounded (insert_words t pairs (insert_or_ignore t d)).
Proof.
  intros Inv Hnone Hlen t' Hin.
  apply rows_of_In in Hin. rewrite rows_of_written in *.
  destruct (t =? t')%string eqn:E.
  - apply String.eqb_eq in E. subst t'. rewrite Hnone. cbn [app].
    rewrite length_map. split; [exact Hlen|]. apply insert_or_ignore_has.
  - rewrite app_nil_r in *. apply rows_of_In in Hin.
    destruct (Inv t' Hin) as [H1 H2]. split; [exact H1|].
    apply insert_or_ignore_keeps. exact H2.
Qed.

Lemma words_bounded_click W title_entry url_entry g :
  words_bounded (database g) ->
  words_bounded (database (snd (process_input W title_entry url_entry g))).
Proof.
  intros Inv.
  destruct (process_input_database W title_entry url_entry g)
    as [-> | (text & Hnone & ->)]; [exact Inv|].
  apply words_bounded_write; [exact Inv | exact Hnone | apply top_words_length].
Qed.

(** The remote part never raises, and it starts with the search request. *)
Lemma fetch_total W title g :
  exists g' urls,
    fetch_and_process_book W title g = (inr tt, g') /\
    opened g' = opened g ++ search_url_of (quote W title) :: urls.
Proof.
  destruct (lookup_dichotomy W title) as [F | (text & S)].
  - destruct (fetch_fails W title g F) as (urls & ->).
    eexists _, urls. split; reflexivity.
  - destruct (fetch_succeeds W title text g S) as (u & ->).
    eexists _, [u]. split; reflexivity.
Qed.

Lemma search_book_total W title g : fst (search_book W title g) = inr tt.
Proof.
  destruct (select_top_words title (database g)) as [|p r] eqn:E.
  - rewrite search_book_miss by exact E.
    destruct (fetch_total W title (cleared g)) as (g' & urls & -> & _).
    reflexivity.
  - rewrite search_book_hit by (rewrite E; discriminate). reflexivity.
Qed.

End InputFacts.

(* ===================================================================== *)
(** ** The properties of the program *)
(* ===================================================================== *)

Import Chars Regex Counting Rule Exn Parser LinkRule Store App Examples.
Import RegexFacts CountingFacts ParserFacts StoreFacts AppFacts InputFacts.

(** *** Sample runs *)

Example words_of_cat_dog :
  words_of cat_dog = ["cat"; "cat"; "dog"; "dog"; "dog"]%string.
Proof. reflexivity. Qed.

Example words_of_mixed :
  words_of "Chapter1 THE end_ of It all" = ["the"; "all"]%string.
Proof. reflexivity. Qed.

Example strip_blanks : strip "  Moby  Dick " = "Moby  Dick"%string.
Proof. reflexivity. Qed.

Example book_id_of_link : book_id_of "/ebooks/111" = "111"%string.
Proof. reflexivity. Qed.

Example ties_keep_first_occurrence :
  top_words "bee ant bee cow cow ant" =
  [("bee", 2); ("ant", 2); ("cow", 2)]%string.
Proof. reflexivity. Qed.

Example last_class_binding_wins :
  extract_links
    [StartTag "li" [("class", Some "booklink"); ("class", Some "other")];
     anchor "/ebooks/1"] = inr [].
Proof. reflexivity. Qed.

Example one_result_link :
  extract_links one_result = inr [Some "/ebooks/111"%string].
Proof. reflexivity. Qed.

Example second_anchor_is_not_captured h1 h2 :
  extract_links [booklink; anchor h1; anchor h2] = inr [Some h1].
Proof. reflexivity. Qed.

Example marker_without_anchor_gives_no_link h :
  extract_links [booklink; booklink; anchor h] = inr [Some h].
Proof. reflexivity. Qed.

Example scanner_error_is_not_found :
  process_input Shapes.broken_markup "moby" EmptyString start =
  (inr tt, {| database := setup_database; output_box := not_found;
              opened := ["https://www.gutenberg.org/ebooks/search/?query=moby"%string] |}).
Proof. reflexivity. Qed.

Example anchor_without_href_is_passed_over :
  extract_links [booklink; StartTag "a" [("name", Some "top")]; anchor "/ebooks/7"]
  = inr [Some "/ebooks/7"%string].
Proof. reflexivity. Qed.

(** A first search for a title goes to the catalog and stores the words; the
    same search again is answered from the store and opens nothing more. *)
Example first_search :
  process_input online " moby " EmptyString start =
  (inr tt,
   {| database :=
        {| Books := ["moby"%string];
           Words := [Row "moby" "the" 3; Row "moby" "whale" 2;
                     Row "moby" "sea" 1] |};
      output_box :=
        listing [("the"%string, 3); ("whale"%string, 2); ("sea"%string, 1)];
      opened := ["https://www.gutenberg.org/ebooks/search/?query=moby"%string;
                 "https://www.gutenberg.org/files/111/111-0.txt"%string] |}).
Proof. reflexivity. Qed.

Example second_search :
  let g := snd (process_input online " moby " EmptyString start) in
  process_input online "moby" EmptyString g =
  (inr tt, {| database := database g;
              output_box :=
                listing [("the"%string, 3); ("whale"%string, 2);
                         ("sea"%string, 1)];
              opened := opened g |}).
Proof. reflexivity. Qed.

Example search_offline :
  process_input offline "moby" EmptyString start =
  (inr tt, {| database := setup_database; output_box := not_found;
              opened := ["https://www.gutenberg.org/ebooks/search/?query=moby"%string] |}).
Proof. reflexivity. Qed.

(** *** Tokenization *)

(** C1, against the rule as worded: in "abc123" the letters "abc" are a
    maximal run of three ASCII letters, yet the pattern finds no word there,
    because no word boundary separates the run from the digit that follows. *)
Lemma letter_run_before_digit :
  letter_runs "abc123" = ["abc"%string] /\
  words_of "abc123" = [] /\
  words_of "abc123" <> letter_runs "abc123" /\
  letter_runs "_never_ again" = ["never"%string; "again"%string] /\
  words_of "_never_ again" = ["again"%string].
Proof. repeat split; try reflexivity. discriminate. Qed.

(** C1, amended: for every text the tokens are, in order, the maximal runs of
    word characters (letters, digits, underscore) of the lower-cased text that
    consist of ASCII letters only and are at least 3 long; on the example text
    the counts are cat:2 and dog:3, shown as dog:3 then cat:2. *)
Theorem tokenization_rule :
  (forall text, words_of text = delimited_words text) /\
  Counter (words_of cat_dog) = [("cat"%string, 2); ("dog"%string, 3)] /\
  top_words cat_dog = [("dog"%string, 3); ("cat"%string, 2)].
Proof.
  split; [|split; reflexivity].
  intros text. unfold words_of, findall, delimited_words.
  rewrite findall_runs. reflexivity.
Qed.

(** C3: for every text the Word-Counter returns at most 10 pairs, sorted by
    frequency descending, each frequency the number of occurrences of its
    word among the tokens, and of two words with the same frequency the one
    that occurs first in the text comes first. *)
Theorem top_words_order (text : string) :
  let toks := words_of text in
  let r := top_words text in
  List.length r <= 10 /\
  StronglySorted desc r /\
  (forall w f, In (w, f) r -> f = count_occ string_dec toks w /\ In w toks) /\
  (forall i j w1 w2 f,
      i < j -> nth_error r i = Some (w1, f) -> nth_error r j = Some (w2, f) ->
      exists p1 p2,
        first_index w1 toks = Some p1 /\ first_index w2 toks = Some p2 /\
        p1 < p2).
Proof.
  cbv zeta. split; [apply top_words_length|].
  split; [apply firstn_sorted, sorted_desc_sorted|].
  split.
  - intros w f H. apply most_common_In in H. apply Counter_counts. exact H.
  - intros i j w1 w2 f Hij Hi Hj.
    apply (keys_Counter_order (words_of text)).
    change w1 with (fst (w1, f)). change w2 with (fst (w2, f)).
    apply before_map. apply sorted_desc_stable; [|reflexivity].
    apply (before_firstn 10). apply (before_nth _ i j); assumption.
Qed.

Lemma top_words_order_witness :
  exists p1 p2,
    first_index "bbb" (words_of "b a bbb ccc ccc a xx aaa bbb") = Some p1 /\
    first_index "ccc" (words_of "b a bbb ccc ccc a xx aaa bbb") = Some p2 /\
    p1 < p2.
Proof.
  apply (proj2 (proj2 (proj2 (top_words_order "b a bbb ccc ccc a xx aaa bbb")))
           0 1 "bbb"%string "ccc"%string 2); [lia | reflexivity | reflexivity].
Defined.

(** *** The link extractor *)

(** C4: the code misses the case of a list item whose class attribute is
    written without a value.  On [<li class><a href="/ebooks/111">X</a></li>]
    the rule of the claim finds no marker and returns the empty sequence, and
    with the example result after that list item it returns ["/ebooks/111"];
    on both the membership test of line 41 raises TypeError, and no sequence
    of links is returned. *)
Theorem valueless_class_raises :
  marked_links valueless_class = [] /\
  extract_links valueless_class = inl none_not_iterable /\
  marked_links (StartTag "li" [("class", None)] :: one_result) =
  [Some "/ebooks/111"%string] /\
  extract_links (StartTag "li" [("class", None)] :: one_result) =
  inl none_not_iterable.
Proof. repeat split; reflexivity. Qed.

(** *** The store *)

(** C8: on a Books table that respects its primary key, inserting a title
    twice gives the table that inserting it once gives, with exactly one row
    of that title, and the Words table is not touched. *)
Theorem book_registration_idempotent (t : string) (d : db) :
  NoDup (Books d) ->
  let d2 := insert_or_ignore t (insert_or_ignore t d) in
  d2 = insert_or_ignore t d /\
  count_occ string_dec (Books d2) t = 1 /\
  NoDup (Books d2) /\
  Words d2 = Words d.
Proof.
  intros Hd. cbv zeta. rewrite insert_or_ignore_again.
  split; [reflexivity|]. split; [|split].
  - apply count_occ_one; [apply insert_or_ignore_NoDup; exact Hd|].
    apply insert_or_ignore_has.
  - apply insert_or_ignore_NoDup. exact Hd.
  - apply insert_or_ignore_words.
Qed.

Lemma book_registration_idempotent_witness :
  count_occ string_dec
    (Books (insert_or_ignore "Dune" (insert_or_ignore "Dune" setup_database)))
    "Dune"%string = 1.
Proof.
  refine (proj1 (proj2 (book_registration_idempotent "Dune" setup_database _))).
  simpl. constructor.
Defined.

(** *** The title lookup *)

(** C5: whenever the Words table holds a row for the title, [search_book]
    shows the rows the local read returns and nothing else happens: no URL is
    opened, the store is as it was; the rows shown are at most 10, sorted by
    frequency descending, each a stored row of exactly that title, and all of
    them when no more than 10 are stored.  Whenever it holds none, the local
    read is empty and [search_book] goes on with the remote lookup, which
    opens the search URL and raises nothing. *)
Theorem local_hit_no_network (W : World) (title : string) (g : GUI) :
  let shown := select_top_words title (database g) in
  (In title (map book_title (Words (database g))) ->
   search_book W title g =
   (inr tt, {| database := database g; output_box := listing shown;
               opened := opened g |}) /\
   shown <> [] /\
   List.length shown <= 10 /\
   StronglySorted desc shown /\
   (forall w f, In (w, f) shown -> In (Row title w f) (Words (database g))) /\
   (List.length (rows_of title (database g)) <= 10 ->
    Permutation (map pair_of (rows_of title (database g))) shown)) /\
  (~ In title (map book_title (Words (database g))) ->
   shown = [] /\
   search_book W title g = fetch_and_process_book W title (cleared g) /\
   fst (search_book W title g) = inr tt /\
   exists urls,
     opened (snd (search_book W title g)) =
     opened g ++ search_url_of (quote W title) :: urls).
Proof.
  cbv zeta. split.
  - intros Hin.
    assert (Hne : select_top_words title (database g) <> []).
    { rewrite select_nil. apply rows_of_In. exact Hin. }
    split; [apply search_book_hit; exact Hne|]. split; [exact Hne|].
    split; [apply select_length|]. split; [apply select_sorted|].
    split; [intros w f; apply select_In | apply select_all].
  - intros Hnot.
    assert (Hnil : select_top_words title (database g) = []).
    { apply select_nil. destruct (rows_of title (database g)) eqn:E;
        [reflexivity|]. exfalso. apply Hnot, rows_of_In. rewrite E.
      discriminate. }
    split; [exact Hnil|]. split; [apply search_book_miss; exact Hnil|].
    split; [apply search_book_total|].
    rewrite search_book_miss by exact Hnil.
    destruct (fetch_total W title (cleared g)) as (g' & urls & -> & Ho).
    exists urls. exact Ho.
Qed.

Lemma local_hit_no_network_witness :
  search_book offline "Moby Dick" whale_store =
  (inr tt,
   {| database := database whale_store;
      output_box := listing [("whale"%string, 50); ("sea"%string, 40)];
      opened := [] |}).
Proof.
  refine (proj1 (proj1 (local_hit_no_network offline "Moby Dick" whale_store) _)).
  simpl. left. reflexivity.
Defined.

(** C6: whenever the remote part of a title lookup fails, whichever way (the
    search request or its decoding, the parser or its callback, no link, a
    link without value, the text request or its decoding, the write to the
    store), [search_book] on a title whose local read returned no rows ends
    normally, with the output box holding the line "Book was not found."
    alone and the store as it was; and so does the click that asked for that
    title: the failure reaches the window as that line, not as an
    exception. *)
Theorem lookup_failures_collapse (W : World) (title : string) (g : GUI) :
  lookup_failure W title ->
  rows_of title (database g) = [] ->
  fst (search_book W title g) = inr tt /\
  output_box (snd (search_book W title g)) = ("Book was not found." ++ nl)%string /\
  database (snd (search_book W title g)) = database g /\
  (forall title_entry url_entry,
      strip title_entry = title -> title <> EmptyString ->
      fst (process_input W title_entry url_entry g) = inr tt /\
      output_box (snd (process_input W title_entry url_entry g)) =
      ("Book was not found." ++ nl)%string).
Proof.
  intros F Hnone. apply select_nil in Hnone.
  assert (E : search_book W title g =
              (inr tt, {| database := database g;
                          output_box := ("Book was not found." ++ nl)%string;
                          opened := opened (snd (search_book W title g)) |})).
  { rewrite search_book_miss by exact Hnone.
    destruct (fetch_fails W title (cleared g) F) as (urls & ->). reflexivity. }
  split; [rewrite E; reflexivity|].
  split; [rewrite E; reflexivity|].
  split; [rewrite E; reflexivity|].
  intros title_entry url_entry Ht Hne. subst title.
  rewrite process_input_title by exact Hne.
  split; rewrite E; reflexivity.
Qed.

Lemma lookup_failures_collapse_witness :
  output_box (snd (search_book offline "moby" start)) =
  ("Book was not found." ++ nl)%string.
Proof.
  refine (proj1 (proj2 (lookup_failures_collapse offline "moby" start _ _))).
  - eapply search_request_fails. reflexivity.
  - reflexivity.
Defined.

(** C7: in every state reached from the empty store by clicks, every title
    of the Words table has at most 10 rows there and a row in Books. *)
Theorem words_bounded_invariant (g : GUI) :
  reachable g ->
  forall t, In t (map book_title (Words (database g))) ->
            List.length (rows_of t (database g)) <= 10 /\
            In t (Books (database g)).
Proof.
  intros R. change (words_bounded (database g)).
  induction R as [|g W te ue R IH].
  - intros t [].
  - apply words_bounded_click. exact IH.
Qed.

Lemma words_bounded_invariant_witness :
  List.length
    (rows_of "moby" (database (snd (process_input online " moby " "x" start))))
  <= 10 /\
  In "moby"%string (Books (database (snd (process_input online " moby " "x" start)))).
Proof.
  apply (words_bounded_invariant
           (snd (process_input online " moby " "x" start))).
  - apply reach_click. apply reach_start.
  - simpl. left. reflexivity.
Defined.

(** *** The inputs *)



(** C9: whenever both inputs are empty once stripped, the click ends normally
    with the line "Please enter a title or URL." alone in the output box,
    which is not the not-found line; no URL is opened and the store is as it
    was. *)
Theorem empty_input_message (W : World) (title_entry url_entry : string)
    (g : GUI) :
  strip title_entry = EmptyString ->
  strip url_entry = EmptyString ->
  process_input W title_entry url_entry g =
  (inr tt, {| database := database g;
              output_box := ("Please enter a title or URL." ++ nl)%string;
              opened := opened g |}) /\
  ("Please enter a title or URL." ++ nl)%string <> not_found.
Proof.
  intros Ht Hu. split; [apply process_input_empty; assumption|].
  discriminate.
Qed.

Lemma empty_input_message_witness :
  process_input online "   " " " whale_store =
  (inr tt, {| database := database whale_store;
              output_box := ("Please enter a title or URL." ++ nl)%string;
              opened := opened whale_store |}).
Proof.
  apply (empty_input_message online "   " " " whale_store); reflexivity.
Defined.

(** C10: two clicks whose stripped titles are equal and not empty do the
    same, whatever the two URL inputs are: same result, same output box, same
    store, same URLs opened. *)
Theorem url_ignored_with_title (W : World)
    (title_entry1 title_entry2 url_entry1 url_entry2 : string) (g : GUI) :
  strip title_entry1 = strip title_entry2 ->
  strip title_entry1 <> EmptyString ->
  process_input W title_entry1 url_entry1 g =
  process_input W title_entry2 url_entry2 g /\
  process_input W title_entry1 url_entry1 g =
  search_book W (strip title_entry1) g.
Proof.
  intros E Hne. rewrite (process_input_title W title_entry1) by exact Hne.
  rewrite (process_input_title W title_entry2) by (rewrite <- E; exact Hne).
  rewrite E. split; reflexivity.
Qed.

Lemma url_ignored_with_title_witness :
  process_input online " moby" "https://example.org/a.txt" start =
  process_input online "moby  " EmptyString start.
Proof.
  apply (url_ignored_with_title online " moby" "moby  "
           "https://example.org/a.txt" EmptyString start).
  - reflexivity.
  - discriminate.
Defined.

(* ===================================================================== *)
(** ** Further facts: characters, words and counts *)
(* ===================================================================== *)

Module WordFacts.
Import Chars Regex Counting Rule Shapes RegexFacts CountingFacts.

Ltac each_char c :=
  destruct c as [[] [] [] [] [] [] [] []]; vm_compute;
  try reflexivity; try (intros H; first [exact H | discriminate H]).

Lemma lower_char_idem c : lower_char (lower_char c) = lower_char c.
Proof. each_char c. Qed.

Lemma lower_char_word c : is_word (lower_char c) = is_word c.
Proof. each_char c. Qed.

Lemma lower_char_letter c :
  is_letter (lower_char c) = true -> between 97 122 (lower_char c) = true.
Proof. each_char c. Qed.

Lemma chars_str l : chars (str l) = l.
Proof. apply list_ascii_of_string_of_list_ascii. Qed.

Lemma str_chars s : str (chars s) = s.
Proof. apply string_of_list_ascii_of_string. Qed.

Lemma chars_app a b : chars (a ++ b)%string = chars a ++ chars b.
Proof.
  unfold chars. induction a as [|c a IH]; simpl; [|rewrite IH]; reflexivity.
Qed.

Lemma length_str l : String.length (str l) = List.length l.
Proof. induction l as [|c l IH]; simpl; [|rewrite IH]; reflexivity. Qed.

Lemma chars_lower s : chars (lower s) = map lower_char (chars s).
Proof. unfold lower. apply chars_str. Qed.

Lemma lower_idem s : lower (lower s) = lower s.
Proof.
  unfold lower at 1. rewrite chars_lower, map_map. unfold lower. f_equal.
  apply map_ext. apply lower_char_idem.
Qed.

(** *** Runs *)

Lemma runs_In_bounded p n : forall l r c,
  List.length l <= n -> In r (runs p l) -> In c r -> In c l.
Proof.
  induction n as [|n IH]; intros l r c Hn Hr Hc.
  - destruct l; [destruct Hr | simpl in Hn; lia].
  - destruct l as [|a l]; [destruct Hr|]. simpl in Hn.
    destruct (p a) eqn:Ha.
    + rewrite (runs_span p a l Ha) in Hr. destruct Hr as [<- | Hr].
      * eapply CountingFacts.firstn_In. exact Hc.
      * right. rewrite <- (firstn_skipn (span_len p l) l).
        apply in_or_app. right.
        apply (IH _ r c); [rewrite length_skipn; lia | exact Hr | exact Hc].
    + simpl in Hr. rewrite Ha in Hr. right.
      apply (IH _ r c); [lia | exact Hr | exact Hc].
Qed.

Lemma runs_In p l r c : In r (runs p l) -> In c r -> In c l.
Proof. apply (runs_In_bounded p (List.length l)). lia. Qed.

Lemma runs_cons_nonempty p c l : p c = true -> runs p (c :: l) <> [].
Proof. intros H. rewrite (runs_span p c l H). discriminate. Qed.

(** A character outside the class separates the runs on its two sides. *)
Lemma runs_app_sep p sep b : p sep = false ->
  forall a, runs p (a ++ sep :: b) = runs p a ++ runs p b.
Proof.
  intros Hs. induction a as [|c a IH].
  - simpl. rewrite Hs. reflexivity.
  - destruct a as [|d a].
    + simpl. rewrite Hs. destruct (p c); reflexivity.
    + change (runs p ((c :: d :: a) ++ sep :: b))
        with (if p c then
                if p d then match runs p ((d :: a) ++ sep :: b) with
                            | run :: rest => (c :: run) :: rest
                            | [] => [[c]]
                            end
                else [c] :: runs p ((d :: a) ++ sep :: b)
              else runs p ((d :: a) ++ sep :: b)).
      change (runs p (c :: d :: a))
        with (if p c then
                if p d then match runs p (d :: a) with
                            | run :: rest => (c :: run) :: rest
                            | [] => [[c]]
                            end
                else [c] :: runs p (d :: a)
              else runs p (d :: a)).
      rewrite IH. destruct (p c); [|reflexivity].
      destruct (p d) eqn:Hd; [|reflexivity].
      pose proof (runs_cons_nonempty p d a Hd) as Hne.
      destruct (runs p (d :: a)); [congruence | reflexivity].
Qed.

Lemma words_of_tokens text :
  words_of text = map str (filter is_token (runs is_word (chars (lower text)))).
Proof. unfold words_of, findall. rewrite findall_runs. reflexivity. Qed.

Lemma token_chars_lowercase text r :
  In r (filter is_token (runs is_word (chars (lower text)))) ->
  3 <= List.length r /\ Forall (fun c => between 97 122 c = true) r.
Proof.
  intros H. apply filter_In in H. destruct H as [Hr Ht].
  unfold is_token in Ht. apply andb_prop in Ht. destruct Ht as [Hl Hn].
  split; [apply Nat.leb_le; exact Hn|].
  apply Forall_forall. intros c Hc.
  assert (Hlet : is_letter c = true)
    by (rewrite forallb_forall in Hl; apply Hl; exact Hc).
  pose proof (runs_In _ _ _ _ Hr Hc) as Hin.
  rewrite chars_lower in Hin. apply in_map_iff in Hin.
  destruct Hin as (c0 & <- & _). apply lower_char_letter. exact Hlet.
Qed.

Lemma token_is_lowercase text w : In w (words_of text) -> lowercase_word w.
Proof.
  rewrite words_of_tokens. intros H. apply in_map_iff in H.
  destruct H as (r & <- & H). unfold lowercase_word.
  rewrite length_str, chars_str. eapply token_chars_lowercase. exact H.
Qed.

(** *** Counts *)

Lemma list_sum_incr w c :
  list_sum (map snd (incr w c)) = S (list_sum (map snd c)).
Proof.
  induction c as [|[k n] r IH]; simpl; [reflexivity|].
  destruct (k =? w)%string; simpl; [reflexivity|]. rewrite IH. lia.
Qed.

Lemma sorted_app_le {A} (R : A -> A -> Prop) (l1 l2 : list A) :
  StronglySorted R (l1 ++ l2) ->
  forall x y, In x l1 -> In y l2 -> R x y.
Proof.
  induction l1 as [|a l1 IH]; simpl; intros S x y Hx Hy; [destruct Hx|].
  inversion S as [|? ? S' Ha]; subst. destruct Hx as [<- | Hx].
  - rewrite Forall_forall in Ha. apply Ha. apply in_or_app. right. exact Hy.
  - apply IH; assumption.
Qed.

Lemma NoDup_firstn {A} n (l : list A) : NoDup l -> NoDup (firstn n l).
Proof.
  intros H. rewrite <- (firstn_skipn n l) in H.
  eapply NoDup_app_remove_r. exact H.
Qed.

Lemma keys_sorted_NoDup c : NoDup (keys c) -> NoDup (keys (sorted_desc c)).
Proof.
  unfold keys. intros H.
  eapply Permutation_NoDup; [|exact H].
  apply Permutation_map. apply sorted_desc_perm.
Qed.

Lemma key_has_entry c w : In w (keys c) -> exists n, In (w, n) c.
Proof.
  unfold keys. intros H. apply in_map_iff in H.
  destruct H as ([k n] & <- & H). exists n. exact H.
Qed.

End WordFacts.

(* ===================================================================== *)
(** ** Further properties: the Word-Counter *)
(* ===================================================================== *)

Import Shapes WordFacts.

(** X1: whenever a word of the text is not among the pairs returned, exactly
    10 pairs are returned, and that word occurs no more often than any word
    that is among them. *)
Theorem top_words_are_most_frequent (text w : string) :
  In w (words_of text) ->
  ~ In w (keys (top_words text)) ->
  List.length (top_words text) = 10 /\
  (forall w' f', In (w', f') (top_words text) ->
                 count_occ string_dec (words_of text) w <= f').
Proof.
  intros Hw Hout. unfold top_words, most_common in *.
  set (s := sorted_desc (Counter (words_of text))) in *.
  apply keys_Counter, key_has_entry in Hw. destruct Hw as (n & Hn).
  pose proof (Counter_counts _ _ _ Hn) as [En _].
  apply sorted_desc_In in Hn. fold s in Hn.
  rewrite <- (firstn_skipn 10 s) in Hn. apply in_app_or in Hn.
  destruct Hn as [Hn | Hn].
  { exfalso. apply Hout. change w with (fst (w, n)). apply in_map. exact Hn. }
  split.
  - rewrite length_firstn. apply Nat.min_l.
    destruct (Nat.le_gt_cases 10 (List.length s)) as [H | H]; [exact H|].
    rewrite skipn_all2 in Hn by lia. destruct Hn.
  - intros w' f' Hin. rewrite <- En.
    pose proof (sorted_desc_sorted (Counter (words_of text))) as S. fold s in S.
    rewrite <- (firstn_skipn 10 s) in S.
    exact (sorted_app_le desc _ _ S (w', f') (w, n) Hin Hn).
Qed.

Lemma top_words_are_most_frequent_witness :
  List.length
    (top_words "one two two three three four five six seven eight nine ten eleven")
  = 10 /\
  count_occ string_dec
    (words_of "one two two three three four five six seven eight nine ten eleven")
    "eleven"%string <= 2.
Proof.
  assert (H : List.length
                (top_words
                   "one two two three three four five six seven eight nine ten eleven")
              = 10 /\
              (forall w' f',
                  In (w', f')
                     (top_words
                        "one two two three three four five six seven eight nine ten eleven") ->
                  count_occ string_dec
                    (words_of
                       "one two two three three four five six seven eight nine ten eleven")
                    "eleven"%string <= f')).
  { apply (top_words_are_most_frequent
             "one two two three three four five six seven eight nine ten eleven"
             "eleven").
    - vm_compute. tauto.
    - vm_compute. intros H.
      repeat (destruct H as [H | H]; [discriminate H|]). exact H. }
  split; [exact (proj1 H)|].
  apply (proj2 H "two"%string 2). vm_compute. left. reflexivity.
Defined.

(** X2: no word is listed twice among the pairs returned. *)
Theorem top_words_distinct (text : string) : NoDup (keys (top_words text)).
Proof.
  unfold top_words, most_common, keys. rewrite <- firstn_map.
  apply NoDup_firstn. apply keys_sorted_NoDup. apply NoDup_keys_Counter.
Qed.

(** X3: every word the tokenizer returns is made of the lower-case letters
    a..z only and has at least three of them. *)
Theorem words_are_lowercase (text w : string) :
  In w (words_of text) -> lowercase_word w.
Proof.
  intros H. rewrite words_of_tokens in H. apply in_map_iff in H.
  destruct H as (r & <- & Hr).
  destruct (token_chars_lowercase text r Hr) as [Hlen Hchars].
  unfold lowercase_word. rewrite length_str, chars_str.
  split; [exact Hlen | exact Hchars].
Qed.

Lemma words_are_lowercase_witness : lowercase_word "whale".
Proof.
  apply (words_are_lowercase "The WHALE, 1851" "whale").
  vm_compute. tauto.
Defined.

(** X4: lower-casing the text beforehand changes neither the words found nor
    the pairs returned. *)
Theorem tokenization_ignores_case (text : string) :
  words_of (lower text) = words_of text /\
  top_words (lower text) = top_words text.
Proof.
  assert (E : words_of (lower text) = words_of text)
    by (unfold words_of; rewrite lower_idem; reflexivity).
  split; [exact E|]. unfold top_words. rewrite E. reflexivity.
Qed.

(** X5: a character that is no word character (a blank, a comma, a line
    feed ...) cuts the text in two: the words of the whole are the words of
    the part before it followed by the words of the part after it. *)
Theorem words_of_app (a b : string) (sep : ascii) :
  is_word sep = false ->
  words_of (a ++ String sep b) = words_of a ++ words_of b.
Proof.
  intros Hs. rewrite !words_of_tokens, !chars_lower, chars_app.
  change (chars (String sep b)) with (sep :: chars b).
  rewrite map_app. cbn [map].
  rewrite runs_app_sep by (rewrite lower_char_word; exact Hs).
  rewrite filter_app, map_app. reflexivity.
Qed.

Lemma words_of_app_witness :
  words_of ("Call me" ++ String ","%char "Ishmael") =
  words_of "Call me" ++ words_of "Ishmael".
Proof. apply (words_of_app "Call me" "Ishmael" ","%char). reflexivity. Defined.

(** X6: the counts of the counter add up to the number of words counted, and
    every word counted has its entry. *)
Theorem counter_total (ws : list string) :
  list_sum (map snd (Counter ws)) = List.length ws /\
  (forall w, In w ws -> In (w, count_occ string_dec ws w) (Counter ws)).
Proof.
  split.
  - induction ws as [|w ws IH] using rev_ind; [reflexivity|].
    rewrite Counter_snoc, list_sum_incr, IH, length_app. simpl. lia.
  - intros w Hw. apply keys_Counter, key_has_entry in Hw.
    destruct Hw as (n & Hn). pose proof (Counter_counts _ _ _ Hn) as [-> _].
    exact Hn.
Qed.

Lemma counter_total_witness :
  In ("dog"%string, 3) (Counter (words_of cat_dog)).
Proof.
  apply (proj2 (counter_total (words_of cat_dog)) "dog"%string).
  vm_compute. tauto.
Defined.

(* ===================================================================== *)
(** ** Further facts: the parser and the links *)
(* ===================================================================== *)

Module LinkFacts.
Import Chars Exn Parser LinkRule Shapes App ParserFacts.

Lemma handle_valueless t s :
  valueless_li t = true ->
  handle_starttag (tag t) (attrs t) s = inl none_not_iterable.
Proof.
  unfold valueless_li, handle_starttag, is_result_item. intros H.
  apply andb_prop in H. destruct H as [-> H].
  destruct (dict_get "class" (attrs t)) as [[cls|]|]; try discriminate.
  reflexivity.
Qed.

Lemma valued_has_value t :
  valueless_li t = false ->
  (tag t =? "li")%string = true -> dict_get "class" (attrs t) <> Some None.
Proof.
  unfold valueless_li. intros H Hli E. rewrite Hli, E in H. discriminate.
Qed.

Lemma handle_valued t s :
  valueless_li t = false ->
  exists s', handle_starttag (tag t) (attrs t) s = inr s'.
Proof.
  intros H. unfold handle_starttag.
  rewrite (is_result_item_marker t (valued_has_value t H)).
  destruct (in_result _ && _); [destruct (dict_get "href" (attrs t))|];
    eexists; reflexivity.
Qed.

Lemma feed_raises doc : forall s e,
  feed doc s = inl e ->
  e = none_not_iterable /\ existsb valueless_li doc = true.
Proof.
  induction doc as [|t r IH]; intros s e H; [discriminate|].
  cbn [feed existsb] in *. destruct (valueless_li t) eqn:V.
  - rewrite (handle_valueless t s V) in H. injection H as <-. auto.
  - destruct (handle_valued t s V) as (s' & E). rewrite E in H.
    apply IH in H. exact H.
Qed.

Lemma feed_valueless doc : forall s,
  existsb valueless_li doc = true -> feed doc s = inl none_not_iterable.
Proof.
  induction doc as [|t r IH]; intros s H; [discriminate|].
  cbn [feed existsb] in *. destruct (valueless_li t) eqn:V.
  - rewrite (handle_valueless t s V). reflexivity.
  - destruct (handle_valued t s V) as (s' & ->). apply IH. exact H.
Qed.

Lemma valueless_li_spec t :
  valueless_li t = true <->
  tag t = "li"%string /\ dict_get "class" (attrs t) = Some None.
Proof.
  unfold valueless_li. split.
  - intros H. apply andb_prop in H. destruct H as [H1 H2].
    apply String.eqb_eq in H1. split; [exact H1|].
    destruct (dict_get "class" (attrs t)) as [[cls|]|]; try discriminate.
    reflexivity.
  - intros [-> ->]. reflexivity.
Qed.

Lemma returns_have_values doc links :
  extract_links doc = inr links -> classes_have_values doc.
Proof.
  intros H t Ht Hli Hc.
  assert (V : existsb valueless_li doc = true).
  { apply existsb_exists. exists t. split; [exact Ht|].
    apply valueless_li_spec. apply String.eqb_eq in Hli. auto. }
  unfold extract_links in H. rewrite (feed_valueless doc init V) in H.
  discriminate.
Qed.

Lemma handle_other t s :
  li_or_a t = false -> handle_starttag (tag t) (attrs t) s = inr s.
Proof.
  unfold li_or_a, handle_starttag, is_result_item. intros H.
  apply orb_false_elim in H. destruct H as [-> ->].
  rewrite andb_false_r. reflexivity.
Qed.

Lemma feed_filter doc : forall s, feed (filter li_or_a doc) s = feed doc s.
Proof.
  induction doc as [|t r IH]; intros s; [reflexivity|].
  cbn [filter]. destruct (li_or_a t) eqn:E.
  - cbn [feed]. destruct (handle_starttag (tag t) (attrs t) s); [reflexivity|].
    apply IH.
  - cbn [feed]. rewrite (handle_other t s E). apply IH.
Qed.

Lemma first_anchor_source doc h :
  first_anchor doc = Some h ->
  exists t, In t doc /\ anchor_href t = Some h.
Proof.
  induction doc as [|t r IH]; simpl; [discriminate|].
  destruct (is_marker t); [discriminate|].
  destruct (anchor_href t) as [h'|] eqn:E.
  - intros [= <-]. exists t. auto.
  - intros H. destruct (IH H) as (u & Hu & Eu). exists u. auto.
Qed.

Lemma marked_links_source doc h :
  In h (marked_links doc) ->
  exists t, In t doc /\ anchor_href t = Some h.
Proof.
  induction doc as [|t r IH]; simpl; [tauto|].
  assert (Hr : In h (marked_links r) ->
               exists u, In u (t :: r) /\ anchor_href u = Some h).
  { intros H. destruct (IH H) as (u & Hu & Eu). exists u. simpl. auto. }
  destruct (is_marker t); [|exact Hr].
  destruct (first_anchor r) as [h'|] eqn:E; [|exact Hr].
  intros [<- | H]; [|exact (Hr H)].
  destruct (first_anchor_source r h' E) as (u & Hu & Eu). exists u. simpl. auto.
Qed.

Lemma marked_links_length doc :
  List.length (marked_links doc) <= List.length (filter is_marker doc).
Proof.
  induction doc as [|t r IH]; simpl; [lia|].
  destruct (is_marker t); [|exact IH].
  destruct (first_anchor r); simpl; lia.
Qed.

(** *** Splitting at a separator *)

Lemma split_on_nonempty sep l : split_on sep l <> [].
Proof.
  destruct l as [|c r]; simpl; [discriminate|].
  destruct (Ascii.eqb c sep); [discriminate|].
  destruct (split_on sep r); discriminate.
Qed.

Lemma join_split sep l : join sep (split_on sep l) = l.
Proof.
  induction l as [|c r IH]; [reflexivity|]. simpl split_on.
  pose proof (split_on_nonempty sep r) as Hne.
  destruct (Ascii.eqb c sep) eqn:E.
  - apply Ascii.eqb_eq in E. subst c.
    destruct (split_on sep r) as [|p ps]; [congruence|].
    cbn [join app]. cbn [join] in IH. rewrite IH. reflexivity.
  - destruct (split_on sep r) as [|p ps]; [congruence|].
    cbn [join] in *. destruct ps; simpl; rewrite <- IH; reflexivity.
Qed.

Lemma split_no_sep sep l : Forall (fun p => ~ In sep p) (split_on sep l).
Proof.
  induction l as [|c r IH]; simpl.
  - constructor; [tauto | constructor].
  - destruct (Ascii.eqb c sep) eqn:E.
    + constructor; [tauto | exact IH].
    + destruct (split_on sep r) as [|p ps]; [repeat constructor; simpl|].
      * intros [H | []]. subst c. rewrite Ascii.eqb_refl in E. discriminate.
      * inversion IH as [|? ? Hp Hps]; subst. constructor; [|exact Hps].
        simpl. intros [H | H]; [|tauto].
        subst c. rewrite Ascii.eqb_refl in E. discriminate.
Qed.

(** What is joined ends with the last piece, and what stands before it is
    empty or ends with the separator. *)
Lemma join_last sep ps :
  ps <> [] ->
  exists before,
    join sep ps = before ++ last ps [] /\
    (before = [] \/ exists b, before = b ++ [sep]).
Proof.
  induction ps as [|p rest IH]; [congruence|]. intros _.
  destruct rest as [|q rest].
  - exists []. simpl. auto.
  - destruct IH as (b & E & Hb); [discriminate|].
    exists (p ++ sep :: b). split.
    + change (join sep (p :: q :: rest)) with (p ++ sep :: join sep (q :: rest)).
      rewrite E. change (last (p :: q :: rest) []) with (last (q :: rest) []).
      rewrite <- app_assoc. reflexivity.
    + right. destruct Hb as [-> | (b' & ->)].
      * exists p. reflexivity.
      * exists (p ++ sep :: b'). rewrite <- app_assoc. reflexivity.
Qed.

Lemma last_In {A} (l : list A) d : l <> [] -> In (last l d) l.
Proof.
  induction l as [|x r IH]; [congruence|]. intros _.
  destruct r as [|y r]; [left; reflexivity|].
  right. apply IH. discriminate.
Qed.

End LinkFacts.

(* ===================================================================== *)
(** ** Further properties: the link extractor *)
(* ===================================================================== *)

Import LinkFacts.

(** X7: what [parser.feed(html)] ends with, by cases on the start tags the
    scanner hands to [handle_starttag].  If one of them is a list item whose
    class attribute is written without a value, the feed raises the TypeError
    of the membership test.  If none is, the feed raises what the scanner of
    HTMLParser raises by itself, when it raises; and when it does not, the
    links collected are exactly those of the link rule on the start tags
    handed over. *)
Theorem parser_feed_outcome (W : World) (html : string) :
  ((exists t, In t (start_tags W html) /\ tag t = "li"%string /\
              dict_get "class" (attrs t) = Some None) ->
   parser_feed W html = inl none_not_iterable) /\
  (classes_have_values (start_tags W html) ->
   parser_feed W html =
   match scanner_error W html with
   | Some e => inl e
   | None => inr (marked_links (start_tags W html))
   end).
Proof.
  unfold parser_feed. split.
  - intros (t & Ht & Hli & Hc). unfold extract_links.
    rewrite feed_valueless; [reflexivity|].
    apply existsb_exists. exists t. split; [exact Ht|].
    apply valueless_li_spec. auto.
  - intros V. rewrite (extract_links_marked _ V). reflexivity.
Qed.

Lemma parser_feed_outcome_witness :
  parser_feed broken_markup "<li class=booklink><a href=/ebooks/111>X</a></li><![zz["
  = inl (Raise AssertionError "unknown status keyword 'zz' in marked section").
Proof.
  refine (proj2 (parser_feed_outcome broken_markup
            "<li class=booklink><a href=/ebooks/111>X</a></li><![zz[") _).
  intros t H.
  repeat (destruct H as [<- | H]; [simpl; try discriminate|]);
    try (intros _; discriminate).
  destruct H.
Defined.

(** X8: a call of [handle_starttag] for a tag other than [li] and [a] returns
    the parser as it was; so, over any sequence of start tags handed to the
    callback and from any parser state, leaving those calls out changes
    neither the parser the feed ends with nor the exception it raises. *)
Theorem other_tags_have_no_effect (calls : list start_tag)
    (self : GutenbergSearchParser) :
  (forall t, li_or_a t = false ->
             handle_starttag (tag t) (attrs t) self = inr self) /\
  feed (filter li_or_a calls) self = feed calls self.
Proof.
  split.
  - intros t H. apply handle_other. exact H.
  - apply feed_filter.
Qed.

Lemma other_tags_have_no_effect_witness :
  handle_starttag "div" [("class", Some "booklink"%string)]
    {| book_links := []; in_result := true |} =
  inr {| book_links := []; in_result := true |}.
Proof.
  apply (proj1 (other_tags_have_no_effect []
                  {| book_links := []; in_result := true |})
           (StartTag "div" [("class", Some "booklink"%string)])).
  reflexivity.
Defined.

(** X9: when the extractor returns, it returns at most one link per marked
    list item, and every link is the href of an anchor of the document. *)
Theorem links_come_from_anchors (doc : list start_tag)
    (links : list (option string)) :
  extract_links doc = inr links ->
  List.length links <= List.length (filter is_marker doc) /\
  (forall h, In h links ->
             exists t, In t doc /\ tag t = "a"%string /\
                       dict_get "href" (attrs t) = Some h).
Proof.
  intros H. pose proof (returns_have_values doc links H) as V.
  rewrite (extract_links_marked doc V) in H. injection H as <-.
  split; [apply marked_links_length|].
  intros h Hh. destruct (marked_links_source doc h Hh) as (t & Ht & E).
  exists t. split; [exact Ht|]. unfold anchor_href in E.
  destruct (tag t =? "a")%string eqn:Ea; [|discriminate].
  apply String.eqb_eq in Ea. auto.
Qed.

Lemma links_come_from_anchors_witness :
  List.length [Some "/ebooks/2701"%string] <=
  List.length (filter is_marker
                 [booklink; StartTag "div" []; anchor "/ebooks/2701"; anchor "/x"]).
Proof.
  refine (proj1 (links_come_from_anchors
            [booklink; StartTag "div" []; anchor "/ebooks/2701"; anchor "/x"]
            [Some "/ebooks/2701"%string] _)).
  reflexivity.
Defined.

(** X10: the book id taken from a link is the part of the link after its last
    slash (the whole link when it has none): it ends the link, it holds no
    slash, and what stands before it is empty or ends with a slash. *)
Theorem book_id_is_last_segment (link : string) :
  ~ In "/"%char (chars (book_id_of link)) /\
  exists before,
    chars link = before ++ chars (book_id_of link) /\
    (before = [] \/ exists b, before = b ++ ["/"%char]).
Proof.
  unfold book_id_of. rewrite WordFacts.chars_str.
  pose proof (split_on_nonempty "/"%char (chars link)) as Hne. split.
  - pose proof (split_no_sep "/"%char (chars link)) as F.
    rewrite Forall_forall in F. apply F. apply last_In. exact Hne.
  - destruct (join_last "/"%char _ Hne) as (b & E & Hb).
    rewrite join_split in E. exists b. auto.
Qed.

(* ===================================================================== *)
(** ** Further facts: stripping, the store and the clicks *)
(* ===================================================================== *)

Module ClickFacts.
Import Chars Regex Counting Exn Parser Store App Shapes.
Import CountingFacts StoreFacts AppFacts InputFacts WordFacts.

(** *** [strip] *)

Lemma lstrip_split l :
  exists sp, l = sp ++ lstrip l /\ forallb is_space sp = true.
Proof.
  induction l as [|c r (sp & E & H)]; [exists []; auto|]. simpl.
  destruct (is_space c) eqn:Hc.
  - exists (c :: sp). simpl. rewrite Hc, H, <- E. auto.
  - exists []. auto.
Qed.

Lemma lstrip_head l c r : lstrip l = c :: r -> is_space c = false.
Proof.
  induction l as [|a l IH]; simpl; [discriminate|].
  destruct (is_space a) eqn:Ha; [exact IH|]. intros [= <- _]. exact Ha.
Qed.

Lemma lstrip_nil_iff l : lstrip l = [] <-> forallb is_space l = true.
Proof.
  induction l as [|a l IH]; simpl; [tauto|].
  destruct (is_space a); simpl; [exact IH|]. split; discriminate.
Qed.

Lemma lstrip_fixed l : (forall c r, l = c :: r -> is_space c = false) -> lstrip l = l.
Proof.
  destruct l as [|a l]; [reflexivity|]. intros H. simpl.
  rewrite (H a l eq_refl). reflexivity.
Qed.

Lemma lstrip_idem l : lstrip (lstrip l) = lstrip l.
Proof. apply lstrip_fixed. intros c r. apply lstrip_head. Qed.

Lemma forallb_rev {A} (f : A -> bool) l : forallb f (rev l) = forallb f l.
Proof.
  induction l as [|a l IH]; [reflexivity|]. simpl.
  rewrite forallb_app, IH. simpl. rewrite andb_true_r. apply andb_comm.
Qed.

Lemma rstrip_prefix m : exists sp, m = rstrip m ++ sp.
Proof.
  destruct (lstrip_split (rev m)) as (sp & E & _). exists (rev sp).
  unfold rstrip. rewrite <- rev_app_distr, <- E, rev_involutive. reflexivity.
Qed.

Lemma strip_chars s : chars (strip s) = rstrip (lstrip (chars s)).
Proof. unfold strip. apply chars_str. Qed.

Lemma strip_idem s : strip (strip s) = strip s.
Proof.
  unfold strip at 1. rewrite strip_chars. f_equal.
  set (m := lstrip (chars s)).
  assert (Hq : lstrip (rstrip m) = rstrip m).
  { apply lstrip_fixed. intros c r E.
    destruct (rstrip_prefix m) as (sp & Em). rewrite E in Em.
    apply (lstrip_head (chars s) c (r ++ sp)). exact Em. }
  rewrite Hq. unfold rstrip. rewrite rev_involutive, lstrip_idem. reflexivity.
Qed.

Lemma strip_blank s : forallb is_space (chars s) = true -> strip s = EmptyString.
Proof.
  intros H. unfold strip. apply lstrip_nil_iff in H. rewrite H. reflexivity.
Qed.

(** *** Sorting what is sorted *)

Lemma sorted_desc_fixed l : StronglySorted desc l -> sorted_desc l = l.
Proof.
  induction 1 as [|x r Hr IH Hx]; [reflexivity|]. simpl. rewrite IH.
  destruct r as [|y r]; [reflexivity|]. simpl.
  inversion Hx as [|? ? Hy _]; subst. unfold desc in Hy.
  apply Nat.leb_le in Hy. rewrite Hy. reflexivity.
Qed.

Lemma top_words_sorted text : StronglySorted desc (top_words text).
Proof. apply firstn_sorted, sorted_desc_sorted. Qed.

Lemma pair_of_written t pairs :
  map pair_of (map (fun p => Row t (fst p) (snd p)) pairs) = pairs.
Proof.
  rewrite map_map. rewrite <- (map_id pairs) at 2. apply map_ext.
  intros [w f]. reflexivity.
Qed.

(** What was written for a title that had no rows is what the read returns. *)
Lemma select_written t pairs d :
  rows_of t d = [] -> List.length pairs <= 10 -> StronglySorted desc pairs ->
  select_top_words t (insert_words t pairs (insert_or_ignore t d)) = pairs.
Proof.
  intros Hnone Hlen Hs. unfold select_top_words.
  rewrite rows_of_written, Hnone, String.eqb_refl. cbn [app].
  rewrite pair_of_written, (sorted_desc_fixed _ Hs). apply firstn_all2. exact Hlen.
Qed.

Lemma rows_of_other t t' pairs d :
  t <> t' ->
  rows_of t' (insert_words t pairs (insert_or_ignore t d)) = rows_of t' d.
Proof.
  intros N. rewrite rows_of_written. apply String.eqb_neq in N. rewrite N.
  apply app_nil_r.
Qed.

(** *** One click *)

(** A click leaves the store alone, or it is a title lookup that went through
    for a title without rows and wrote that book. *)
Lemma click_writes W title_entry url_entry g :
  database (snd (process_input W title_entry url_entry g)) = database g \/
  exists text,
    strip title_entry <> EmptyString /\
    rows_of (strip title_entry) (database g) = [] /\
    lookup_succeeds W (strip title_entry) text /\
    process_input W title_entry url_entry g =
    fetch_and_process_book W (strip title_entry) (cleared g) /\
    database (snd (process_input W title_entry url_entry g)) =
    insert_words (strip title_entry) (top_words text)
      (insert_or_ignore (strip title_entry) (database g)).
Proof.
  destruct (string_dec (strip title_entry) EmptyString) as [Ht|Ht].
  - left. destruct (string_dec (strip url_entry) EmptyString) as [Hu|Hu].
    + rewrite process_input_empty by assumption. reflexivity.
    + rewrite process_input_url by assumption. reflexivity.
  - rewrite process_input_title by assumption.
    set (title := strip title_entry) in *.
    destruct (select_top_words title (database g)) as [|p r] eqn:E.
    + rewrite search_book_miss by exact E.
      destruct (lookup_dichotomy W title) as [F | (text & S)].
      * left. destruct (fetch_fails W title (cleared g) F) as (urls & ->).
        reflexivity.
      * right. exists text. split; [exact Ht|].
        split; [apply select_nil; exact E|]. split; [exact S|].
        split; [reflexivity|].
        destruct (fetch_succeeds W title text (cleared g) S) as (u & ->).
        reflexivity.
    + left. rewrite search_book_hit by (rewrite E; discriminate). reflexivity.
Qed.

(** The URLs one run of [fetch_and_process_book] opens. *)
Lemma fetch_opens W title g :
  exists urls,
    opened (snd (fetch_and_process_book W title g)) = opened g ++ urls /\
    List.length urls <= 2 /\
    Forall (fun u => u = search_url_of (quote W title) \/
                     exists id, u = text_url_of id) urls.
Proof.
  destruct (lookup_dichotomy W title) as [F | (text & S)].
  - destruct F as [e H | html e H1 H2 | html H1 H2 | html rest H1 H2
                  | html link rest e H1 H2 H3 | html link rest text e H1 H2 H3 H4];
      unfold fetch_and_process_book, try_except, bind, fetch, parse.
    + rewrite H. eexists [_]. cbn. repeat split; [lia|]. repeat constructor.
    + rewrite H1, H2. eexists [_]. cbn. repeat split; [lia|]. repeat constructor.
    + rewrite H1, H2. eexists [_]. cbn. repeat split; [lia|]. repeat constructor.
    + rewrite H1, H2. eexists [_]. cbn. repeat split; [lia|]. repeat constructor.
    + rewrite H1, H2. cbn [ret raise last_segment]. rewrite H3.
      eexists [_; _]. cbn. rewrite <- app_assoc. repeat split; [lia|].
      constructor; [left; reflexivity|]. constructor; [|constructor].
      right. eexists. reflexivity.
    + rewrite H1, H2. cbn [ret raise last_segment]. rewrite H3.
      unfold persist. rewrite H4.
      eexists [_; _]. cbn. rewrite <- app_assoc. repeat split; [lia|].
      constructor; [left; reflexivity|]. constructor; [|constructor].
      right. eexists. reflexivity.
  - pose proof S as (html & link & rest & H1 & H2 & H3 & H4).
    unfold fetch_and_process_book, try_except, bind, fetch, parse.
    rewrite H1, H2. cbn [ret raise last_segment]. rewrite H3.
    unfold persist. rewrite H4. unfold box_delete. rewrite show_run.
    eexists [_; _]. cbn. rewrite <- app_assoc. repeat split; [lia|].
    constructor; [left; reflexivity|]. constructor; [|constructor].
    right. eexists. reflexivity.
Qed.

Lemma top_words_entry text w f :
  In (w, f) (top_words text) -> lowercase_word w /\ 1 <= f.
Proof.
  intros H. apply most_common_In, Counter_counts in H. destruct H as [-> Hw].
  split; [eapply token_is_lowercase; exact Hw|].
  apply (proj1 (count_occ_In string_dec _ _)) in Hw. lia.
Qed.

Lemma Books_written t pairs d :
  Books (insert_words t pairs (insert_or_ignore t d)) = Books d \/
  Books (insert_words t pairs (insert_or_ignore t d)) = Books d ++ [t].
Proof.
  unfold insert_words, insert_or_ignore. cbn [Books].
  destruct (has_title t (Books d)); auto.
Qed.

Lemma Words_written t pairs d :
  Words (insert_words t pairs (insert_or_ignore t d)) =
  Words d ++ map (fun p => Row t (fst p) (snd p)) pairs.
Proof. unfold insert_words. cbn [Words]. rewrite insert_or_ignore_words. reflexivity. Qed.

Lemma written_row_keeps t pairs d r :
  written_row d r -> written_row (insert_words t pairs (insert_or_ignore t d)) r.
Proof.
  unfold written_row. intros (H1 & H2 & H3 & H4).
  split; [exact H1|]. split; [exact H2|]. split; [|exact H4].
  unfold insert_words. cbn [Books]. apply insert_or_ignore_keeps. exact H3.
Qed.

(** *** All clicks *)

Lemma reachable_rows g :
  reachable g -> Forall (written_row (database g)) (Words (database g)).
Proof.
  induction 1 as [|g W te ue R IH]; [constructor|].
  destruct (click_writes W te ue g) as [-> | (text & Ht & _ & _ & _ & ->)];
    [exact IH|].
  rewrite Words_written. apply Forall_app. split.
  - eapply Forall_impl; [|exact IH]. intros r. apply written_row_keeps.
  - apply Forall_forall. intros r Hr. apply in_map_iff in Hr.
    destruct Hr as ([w f] & <- & Hp). apply top_words_entry in Hp.
    unfold written_row. cbn [book_title word frequency fst snd].
    split; [exact Ht|]. split; [apply strip_idem|].
    split; [|exact Hp]. unfold insert_words. cbn [Books].
    apply insert_or_ignore_has.
Qed.

Lemma reachable_books g :
  reachable g ->
  NoDup (Books (database g)) /\
  Forall (fun t => t <> EmptyString /\ strip t = t) (Books (database g)).
Proof.
  induction 1 as [|g W te ue R [IH1 IH2]]; [split; constructor|].
  destruct (click_writes W te ue g) as [-> | (text & Ht & _ & _ & _ & ->)];
    [auto|].
  split.
  - unfold insert_words. cbn [Books]. apply insert_or_ignore_NoDup. exact IH1.
  - destruct (Books_written (strip te) (top_words text) (database g)) as [-> | ->];
      [exact IH2|].
    apply Forall_app. split; [exact IH2|].
    constructor; [|constructor]. split; [exact Ht | apply strip_idem].
Qed.

Lemma reachable_sorted g :
  reachable g ->
  forall t, StronglySorted desc (map pair_of (rows_of t (database g))) /\
            List.length (rows_of t (database g)) <= 10.
Proof.
  induction 1 as [|g W te ue R IH]; intros t; [split; [constructor | simpl; lia]|].
  destruct (click_writes W te ue g) as [-> | (text & _ & Hnone & _ & _ & ->)];
    [apply IH|].
  destruct (string_dec (strip te) t) as [<- | N].
  - rewrite rows_of_written, Hnone, String.eqb_refl. cbn [app].
    rewrite pair_of_written, length_map.
    split; [apply top_words_sorted | apply top_words_length].
  - rewrite rows_of_other by exact N. apply IH.
Qed.

End ClickFacts.

(* ===================================================================== *)
(** ** Further properties: the store and the clicks *)
(* ===================================================================== *)

Import ClickFacts.

(** X11: a click never changes or removes a row: it leaves both tables as
    they are or adds rows at their ends, at most one title to Books and at
    most 10 rows to Words, all under the stripped title typed in; what is
    stored for any other title reads as before. *)
Theorem store_only_grows (W : World) (title_entry url_entry : string) (g : GUI) :
  let d := database g in
  let d' := database (snd (process_input W title_entry url_entry g)) in
  (exists bs ws,
      Books d' = Books d ++ bs /\ Words d' = Words d ++ ws /\
      List.length bs <= 1 /\ List.length ws <= 10 /\
      Forall (fun r => book_title r = strip title_entry) ws) /\
  (forall t, t <> strip title_entry ->
             select_top_words t d' = select_top_words t d).
Proof.
  cbv zeta.
  destruct (click_writes W title_entry url_entry g)
    as [-> | (text & _ & _ & _ & _ & ->)].
  - split; [|reflexivity]. exists [], []. rewrite !app_nil_r.
    repeat split; simpl; try lia. constructor.
  - split.
    + rewrite Words_written.
      destruct (Books_written (strip title_entry) (top_words text) (database g))
        as [-> | ->].
      * exists [], (map (fun p => Row (strip title_entry) (fst p) (snd p))
                      (top_words text)).
        rewrite app_nil_r, length_map. repeat split; simpl; try lia.
        -- apply top_words_length.
        -- apply Forall_forall. intros r Hr. apply in_map_iff in Hr.
           destruct Hr as (p & <- & _). reflexivity.
      * exists [strip title_entry],
               (map (fun p => Row (strip title_entry) (fst p) (snd p))
                  (top_words text)).
        rewrite length_map. repeat split; simpl; try lia.
        -- apply top_words_length.
        -- apply Forall_forall. intros r Hr. apply in_map_iff in Hr.
           destruct Hr as (p & <- & _). reflexivity.
    + intros t N. unfold select_top_words.
      rewrite rows_of_other by (intros E; apply N; symmetry; exact E).
      reflexivity.
Qed.

Lemma store_only_grows_witness :
  select_top_words "Moby Dick"
    (database (snd (process_input online " moby " EmptyString whale_store))) =
  select_top_words "Moby Dick" (database whale_store).
Proof.
  apply (proj2 (store_only_grows online " moby " EmptyString whale_store)).
  discriminate.
Defined.

(** X12: in every state reached from the empty store, every row of Words has
    a title that is not empty, is stripped and has its row in Books, a word
    of at least three lower-case letters a..z, and a frequency of at least
    1. *)
Theorem stored_rows_are_well_formed (g : GUI) (r : row) :
  reachable g ->
  In r (Words (database g)) ->
  book_title r <> EmptyString /\ strip (book_title r) = book_title r /\
  In (book_title r) (Books (database g)) /\
  lowercase_word (word r) /\ 1 <= frequency r.
Proof.
  intros R Hr. pose proof (reachable_rows g R) as F.
  rewrite Forall_forall in F. exact (F r Hr).
Qed.

Lemma stored_rows_are_well_formed_witness :
  lowercase_word "whale" /\ 1 <= 2.
Proof.
  refine (proj2 (proj2 (proj2 (stored_rows_are_well_formed
            (snd (process_input online " moby " EmptyString start))
            (Row "moby" "whale" 2) _ _)))).
  - apply reach_click. apply reach_start.
  - vm_compute. tauto.
Defined.

(** X13: in every state reached from the empty store, no title stands twice
    in Books, and every title there is non-empty and stripped. *)
Theorem books_titles_unique (g : GUI) :
  reachable g ->
  NoDup (Books (database g)) /\
  (forall t, In t (Books (database g)) -> t <> EmptyString /\ strip t = t).
Proof.
  intros R. destruct (reachable_books g R) as [H1 H2]. split; [exact H1|].
  rewrite Forall_forall in H2. exact H2.
Qed.

Lemma books_titles_unique_witness :
  NoDup (Books (database (snd (process_input online "moby"
                                 EmptyString
                                 (snd (process_input online " moby " EmptyString start)))))).
Proof.
  refine (proj1 (books_titles_unique _ _)).
  apply reach_click. apply reach_click. apply reach_start.
Defined.

(** X14: in every state reached from the empty store, the local read of a
    title returns exactly the rows stored for it, in the order they were
    written. *)
Theorem stored_rows_shown_as_stored (g : GUI) (t : string) :
  reachable g ->
  select_top_words t (database g) = map pair_of (rows_of t (database g)).
Proof.
  intros R. destruct (reachable_sorted g R t) as [S L].
  unfold select_top_words. rewrite (sorted_desc_fixed _ S).
  apply firstn_all2. rewrite length_map. exact L.
Qed.

Lemma stored_rows_shown_as_stored_witness :
  select_top_words "moby"
    (database (snd (process_input online " moby " EmptyString start))) =
  [("the"%string, 3); ("whale"%string, 2); ("sea"%string, 1)].
Proof.
  refine (stored_rows_shown_as_stored
            (snd (process_input online " moby " EmptyString start)) "moby" _).
  apply reach_click. apply reach_start.
Defined.

(** X15: once a title lookup has gone through on a text with at least one
    word, searching the same title again changes nothing at all: the same
    listing stays in the output box, no URL is opened, whatever the world. *)
Theorem search_again_hits_store (W W' : World) (title text : string) (g : GUI) :
  rows_of title (database g) = [] ->
  lookup_succeeds W title text ->
  top_words text <> [] ->
  search_book W' title (snd (search_book W title g)) =
  (inr tt, snd (search_book W title g)).
Proof.
  intros Hnone S Hne.
  rewrite (search_book_miss W title g) by (apply select_nil; exact Hnone).
  destruct (fetch_succeeds W title text (cleared g) S) as (u & ->).
  cbn [snd cleared database output_box opened].
  assert (E : select_top_words title
                (insert_words title (top_words text)
                   (insert_or_ignore title (database g))) = top_words text).
  { apply select_written;
      [exact Hnone | apply top_words_length | apply top_words_sorted]. }
  rewrite search_book_hit; cbn [database output_box opened]; rewrite E;
    [reflexivity | exact Hne].
Qed.

Lemma search_again_hits_store_witness :
  search_book offline "moby" (snd (search_book online "moby" start)) =
  (inr tt, snd (search_book online "moby" start)).
Proof.
  apply (search_again_hits_store online offline "moby"
           "The whale, the sea; the whale!" start).
  - reflexivity.
  - unfold lookup_succeeds. do 3 eexists. repeat split; reflexivity.
  - discriminate.
Defined.

(** X16: a failed title lookup leaves the program ready for another attempt:
    the same search in a world where the lookup goes through stores the book
    and shows its listing alone, as if the failure had not happened. *)
Theorem failed_lookup_can_be_retried (W1 W2 : World) (title text : string)
    (g : GUI) :
  rows_of title (database g) = [] ->
  lookup_failure W1 title ->
  lookup_succeeds W2 title text ->
  let g2 := snd (search_book W2 title (snd (search_book W1 title g))) in
  database g2 =
  insert_words title (top_words text) (insert_or_ignore title (database g)) /\
  output_box g2 = listing (top_words text).
Proof.
  intros Hnone F S. cbv zeta.
  rewrite (search_book_miss W1 title g) by (apply select_nil; exact Hnone).
  destruct (fetch_fails W1 title (cleared g) F) as (urls & ->).
  cbn [snd]. rewrite search_book_miss
    by (apply select_nil; cbn [database cleared]; exact Hnone).
  match goal with |- context [fetch_and_process_book W2 title ?x] =>
    destruct (fetch_succeeds W2 title text x S) as (u & ->) end.
  split; reflexivity.
Qed.

Lemma failed_lookup_can_be_retried_witness :
  output_box (snd (search_book online "moby" (snd (search_book offline "moby" start))))
  = listing (top_words "The whale, the sea; the whale!").
Proof.
  refine (proj2 (failed_lookup_can_be_retried offline online "moby"
                   "The whale, the sea; the whale!" start _ _ _)).
  - reflexivity.
  - eapply search_request_fails. reflexivity.
  - unfold lookup_succeeds. do 3 eexists. repeat split; reflexivity.
Defined.

(** X17: when the downloaded text has no word at all, the lookup still goes
    through: the title gets its Books row, no Words row is written, the
    output box stays empty, and the next search of the title goes to the
    catalog again. *)
Theorem wordless_text_shows_nothing (W : World) (title text : string) (g : GUI) :
  rows_of title (database g) = [] ->
  lookup_succeeds W title text ->
  words_of text = [] ->
  let g1 := snd (search_book W title g) in
  output_box g1 = EmptyString /\
  Words (database g1) = Words (database g) /\
  In title (Books (database g1)) /\
  (forall W', search_book W' title g1 =
              fetch_and_process_book W' title (cleared g1)).
Proof.
  intros Hnone S Hw. cbv zeta.
  assert (Et : top_words text = [])
    by (unfold top_words; rewrite Hw; reflexivity).
  rewrite (search_book_miss W title g) by (apply select_nil; exact Hnone).
  destruct (fetch_succeeds W title text (cleared g) S) as (u & ->).
  rewrite Et. cbn [snd cleared database output_box opened listing fold_right].
  split; [reflexivity|].
  split; [rewrite Words_written; apply app_nil_r|].
  split; [unfold insert_words; cbn [Books]; apply insert_or_ignore_has|].
  intros W'. apply search_book_miss. cbn [database]. apply select_nil.
  rewrite rows_of_written, Hnone. rewrite String.eqb_refl. reflexivity.
Qed.

Lemma wordless_text_shows_nothing_witness :
  output_box (snd (search_book wordless "it" start)) = EmptyString.
Proof.
  refine (proj1 (wordless_text_shows_nothing wordless "it" "I am 42, so it is."
                   start _ _ _)).
  - reflexivity.
  - unfold lookup_succeeds. do 3 eexists. repeat split; reflexivity.
  - reflexivity.
Defined.

(** X18: inputs made of white space only count as empty: the click shows the
    line that asks for a title or URL, opens nothing and writes nothing. *)
Theorem blank_inputs_are_empty (W : World) (title_entry url_entry : string)
    (g : GUI) :
  forallb is_space (chars title_entry) = true ->
  forallb is_space (chars url_entry) = true ->
  process_input W title_entry url_entry g =
  (inr tt, {| database := database g; output_box := please_enter;
              opened := opened g |}).
Proof.
  intros Ht Hu. apply process_input_empty; apply strip_blank; assumption.
Qed.

Lemma blank_inputs_are_empty_witness :
  process_input online "    " EmptyString whale_store =
  (inr tt, {| database := database whale_store; output_box := please_enter;
              opened := opened whale_store |}).
Proof.
  apply (blank_inputs_are_empty online "    " EmptyString whale_store);
    reflexivity.
Defined.

(** X19: stripping is idempotent, so inputs stripped beforehand give the same
    click as the inputs as typed. *)
Theorem stripped_inputs_same_click (W : World) (title_entry url_entry : string)
    (g : GUI) :
  strip (strip title_entry) = strip title_entry /\
  process_input W (strip title_entry) (strip url_entry) g =
  process_input W title_entry url_entry g.
Proof.
  split; [apply strip_idem|].
  unfold process_input. rewrite !strip_idem. reflexivity.
Qed.

(** X20: a click opens at most two URLs, and each of them is the search URL
    of the stripped title, the text URL of some book id, or the stripped URL
    typed in. *)
Theorem clicks_open_known_urls (W : World) (title_entry url_entry : string)
    (g : GUI) :
  exists urls,
    opened (snd (process_input W title_entry url_entry g)) = opened g ++ urls /\
    List.length urls <= 2 /\
    Forall (fun u => u = search_url_of (quote W (strip title_entry)) \/
                     (exists id, u = text_url_of id) \/
                     u = strip url_entry) urls.
Proof.
  destruct (string_dec (strip title_entry) EmptyString) as [Ht|Ht].
  - destruct (string_dec (strip url_entry) EmptyString) as [Hu|Hu].
    + rewrite process_input_empty by assumption. exists [].
      rewrite app_nil_r. repeat split; [simpl; lia | constructor].
    + rewrite process_input_url by assumption. exists [strip url_entry].
      repeat split; [simpl; lia|]. constructor; [auto | constructor].
  - rewrite process_input_title by assumption.
    destruct (select_top_words (strip title_entry) (database g)) as [|p r] eqn:E.
    + rewrite search_book_miss by exact E.
      destruct (fetch_opens W (strip title_entry) (cleared g)) as (urls & Ho & Hl & Hf).
      exists urls. split; [exact Ho|]. split; [exact Hl|].
      eapply Forall_impl; [|exact Hf]. intros u [H | H]; auto.
    + rewrite search_book_hit by (rewrite E; discriminate). exists [].
      cbn [snd opened]. rewrite app_nil_r.
      repeat split; [simpl; lia | constructor].
Qed.

(** X21: when the download of a typed URL fails, the click shows the text of
    that exception after "Error: ", alone in the output box, and leaves the
    store as it was. *)
Theorem direct_url_failure_verbatim (W : World) (title_entry url_entry : string)
    (g : GUI) (e : exn) :
  strip title_entry = EmptyString ->
  strip url_entry <> EmptyString ->
  urlopen_text W (strip url_entry) = inl e ->
  process_input W title_entry url_entry g =
  (inr tt, {| database := database g;
              output_box := ("Error: " ++ exn_str e ++ nl)%string;
              opened := opened g ++ [strip url_entry] |}).
Proof.
  intros Ht Hu He. rewrite process_input_url by assumption.
  unfold direct_url_error. rewrite He. reflexivity.
Qed.

Lemma direct_url_failure_verbatim_witness :
  process_input offline EmptyString "http://example.org/a.txt " start =
  (inr tt,
   {| database := setup_database;
      output_box :=
        ("Error: <urlopen error [Errno -2] Name or service not known>" ++ nl)%string;
      opened := ["http://example.org/a.txt"%string] |}).
Proof.
  apply (direct_url_failure_verbatim offline EmptyString
           "http://example.org/a.txt " start
           (Raise URLError "<urlopen error [Errno -2] Name or service not known>")).
  - reflexivity.
  - discriminate.
  - reflexivity.
Defined.

(* ===================================================================== *)
(** ** Further facts: the lines of the output box *)
(* ===================================================================== *)

Module BoxFacts.
Import Chars Counting Exn Store App Shapes.
Import CountingFacts StoreFacts AppFacts InputFacts WordFacts ClickFacts.

Lemma lines_app a b : lines (a ++ b)%string = lines a + lines b.
Proof. unfold lines. rewrite chars_app, filter_app, length_app. reflexivity. Qed.

Lemma lowercase_no_line_feed c :
  between 97 122 c = true -> Ascii.eqb (ascii_of_nat 10) c = false.
Proof. each_char c. Qed.

Lemma lines_lowercase w : lowercase_word w -> lines w = 0.
Proof.
  intros [_ F]. unfold lines. induction F as [|c l Hc _ IH]; [reflexivity|].
  cbn [filter]. rewrite (lowercase_no_line_feed c Hc). exact IH.
Qed.

Lemma lines_digits u : lines (NilEmpty.string_of_uint u) = 0.
Proof. induction u; simpl; try reflexivity; exact IHu. Qed.

Lemma lines_line p : lowercase_word (fst p) -> lines (line p) = 1.
Proof.
  intros H. unfold line. rewrite !lines_app, (lines_lowercase _ H), lines_digits.
  reflexivity.
Qed.

Lemma lines_listing pairs :
  Forall (fun p => lowercase_word (fst p)) pairs ->
  lines (listing pairs) = List.length pairs.
Proof.
  induction 1 as [|p r Hp _ IH]; [reflexivity|].
  cbn [listing fold_right]. rewrite lines_app, (lines_line p Hp).
  fold (listing r). rewrite IH. reflexivity.
Qed.

End BoxFacts.

Import BoxFacts.

(** X22: in every state reached from the empty store, a click with a
    non-empty title leaves at most 10 lines in the output box: one line per
    pair shown, or the one line that says the book was not found. *)
Theorem title_search_shows_at_most_ten_lines (W : World)
    (title_entry url_entry : string) (g : GUI) :
  reachable g ->
  strip title_entry <> EmptyString ->
  lines (output_box (snd (process_input W title_entry url_entry g))) <= 10.
Proof.
  intros R Ht. rewrite process_input_title by exact Ht.
  set (title := strip title_entry).
  destruct (select_top_words title (database g)) as [|p r] eqn:E.
  - rewrite search_book_miss by exact E.
    destruct (lookup_dichotomy W title) as [F | (text & S)].
    + destruct (fetch_fails W title (cleared g) F) as (urls & ->).
      cbn. lia.
    + destruct (fetch_succeeds W title text (cleared g) S) as (u & ->).
      cbn [snd output_box]. rewrite lines_listing.
      * apply top_words_length.
      * apply Forall_forall. intros [w f] Hp.
        exact (proj1 (top_words_entry text w f Hp)).
  - rewrite search_book_hit by (rewrite E; discriminate).
    cbn [snd output_box]. rewrite lines_listing.
    + apply select_length.
    + apply Forall_forall. intros [w f] Hp. apply select_In in Hp.
      pose proof (reachable_rows g R) as F. rewrite Forall_forall in F.
      exact (proj1 (proj2 (proj2 (proj2 (F _ Hp))))).
Qed.

Lemma title_search_shows_at_most_ten_lines_witness :
  lines (output_box (snd (process_input online "moby" "x" start))) <= 10.
Proof.
  apply (title_search_shows_at_most_ten_lines online "moby" "x" start).
  - apply reach_start.
  - discriminate.
Defined.
